(** * career-takAI: the personal-assistant chatbot of [manova_ai_assistant/app.py]

    A shallow embedding of the knowledge loader ([Me._load_documents]), the
    tool registry ([push], [record_user_details], [record_unknown_question],
    the [globals()] dispatch of [Me.handle_tool_call]), the conversation
    engine ([Me.chat]) and the two UI callbacks ([respond], [submit_contact]),
    followed by the properties the specification states about them.

    Conventions.
    - A Python [str] is a Rocq [string] holding its UTF-8 bytes.
    - A Python [dict] with string keys is a [gmap string _]; the values of a
      message [dict] are decoded JSON values, a [str] being a [JString].
    - Code that can raise returns an [outcome]; code that also mutates state
      or talks to the outside runs in the state-and-exception monad [M].
    - [print] diagnostics go to stdout only and are not modelled.
    - The collaborators the program does not define (the JSON decoder, the
      remote chat-completion API, the notification transport, objects bound
      in the module namespace by libraries) are the fields of [env]; every
      theorem holds for all of them.
    - [Me.handle_tool_call] looks a tool up in [globals()], where [respond]
      is bound, and [respond] calls [me.chat]: dispatch and engine call each
      other. The dispatch takes what a call of [respond] does as a
      parameter, and [chat_loop] closes the recursion.
    - The loop of [Me.chat] has no bound. [chat_loop] runs it for at most
      [fuel] iterations, and a [chat] call nested in an iteration for the
      iterations then left; [Ok None] is a run that needs more. The limit
      the interpreter puts on the depth of nested calls is not modelled: a
      run in which calls of [respond] nest deeper than that limit raises
      [RecursionError] in the interpreter and goes on here. *)

From Stdlib Require Import Ascii.
From stdpp Require Import gmap strings list fin_maps.

Set Warnings "-register-all".

(** ** Python strings *)

Module Str.

(** The double-quote character, for building JSON text. *)
Definition dq : string := String "034"%char "".

Definition is_upper (c : ascii) : bool :=
  (65 <=? nat_of_ascii c)%nat && (nat_of_ascii c <=? 90)%nat.

Definition lower_ascii (c : ascii) : ascii :=
  if is_upper c then ascii_of_nat (nat_of_ascii c + 32) else c.

(** [str.lower], as far as it can matter for a search of ASCII text: the
    letters A-Z, and the two code points outside ASCII whose lower case
    contains an ASCII letter, U+212A KELVIN SIGN (to [k]) and U+0130 (to
    [i] followed by U+0307). Every other code point outside ASCII is kept:
    Python maps it to code points outside ASCII again. *)
Fixpoint lower (s : string) : string :=
  match s with
  | "" => ""
  | String c r =>
      match c, r with
      | "226"%char, String "132"%char (String "170"%char r') =>
          String "k"%char (lower r')
      | "196"%char, String "176"%char r' =>
          String "i"%char (String "204"%char (String "135"%char (lower r')))
      | _, _ => String (lower_ascii c) (lower r)
      end
  end.

(** [sub in s] *)
Fixpoint contains (sub s : string) : bool :=
  String.prefix sub s ||
  match s with
  | "" => false
  | String _ r => contains sub r
  end.

(** The code points [str.isspace] accepts, by the length of their UTF-8
    encoding: U+0009-000D, U+001C-001F, U+0020; U+0085, U+00A0; U+1680,
    U+2000-200A, U+2028, U+2029, U+202F, U+205F, U+3000. *)
Definition is_space1 (a : ascii) : bool :=
  let n := nat_of_ascii a in
  ((9 <=? n) && (n <=? 13) || (28 <=? n) && (n <=? 32))%nat.

Definition is_space2 (a b : ascii) : bool :=
  let m := nat_of_ascii b in
  ((nat_of_ascii a =? 194) && ((m =? 133) || (m =? 160)))%nat.

Definition is_space3 (a b c : ascii) : bool :=
  let x := nat_of_ascii a in
  let y := nat_of_ascii b in
  let z := nat_of_ascii c in
  ((x =? 225) && (y =? 154) && (z =? 128)
   || (x =? 226) && (y =? 128)
      && ((128 <=? z) && (z <=? 138) || (z =? 168) || (z =? 169) || (z =? 175))
   || (x =? 226) && (y =? 129) && (z =? 159)
   || (x =? 227) && (y =? 128) && (z =? 128))%nat.

(** Drop the white space at the front of [s]; [sp2] and [sp3] recognise the
    two- and three-byte code points in the order the bytes are met. *)
Fixpoint strip_front (sp2 : ascii → ascii → bool)
    (sp3 : ascii → ascii → ascii → bool) (s : string) : string :=
  match s with
  | "" => ""
  | String a r =>
      if is_space1 a then strip_front sp2 sp3 r else
      match r with
      | String b r' =>
          if sp2 a b then strip_front sp2 sp3 r' else
          match r' with
          | String c r'' => if sp3 a b c then strip_front sp2 sp3 r'' else s
          | "" => s
          end
      | "" => s
      end
  end.

Definition lstrip (s : string) : string := strip_front is_space2 is_space3 s.

Definition rstrip (s : string) : string :=
  String.rev
    (strip_front (λ a b, is_space2 b a) (λ a b c, is_space3 c b a) (String.rev s)).

(** [s.strip()] *)
Definition strip (s : string) : string := rstrip (lstrip s).

(** Truth value of a [str]. *)
Definition truthy (s : string) : bool := negb (String.eqb s "").

(** The UTF-8 encodings of the white-space code points. *)
Definition b3 (x y z : nat) : string :=
  String (ascii_of_nat x) (String (ascii_of_nat y) (String (ascii_of_nat z) "")).

Definition whitespace : list string :=
  ((λ n, String (ascii_of_nat n) "") <$> [9; 10; 11; 12; 13; 28; 29; 30; 31; 32])
  ++ ((λ n, String (ascii_of_nat 194) (String (ascii_of_nat n) "")) <$> [133; 160])
  ++ [b3 225 154 128]
  ++ (b3 226 128 <$> [128; 129; 130; 131; 132; 133; 134; 135; 136; 137; 138;
                      168; 169; 175])
  ++ [b3 226 129 159; b3 227 128 128].

(** A string made of white space only (the empty string included). *)
Inductive whitespace_only : string → Prop :=
| ws_empty : whitespace_only ""
| ws_more w s : w ∈ whitespace → whitespace_only s → whitespace_only (w +:+ s).

End Str.

(** ** Exceptions, outcomes and the effect monad *)

(** The exceptions the code can meet; all are subclasses of [Exception].
    [Failure] stands for any exception a collaborator raises (a transport
    error, an unreadable file, a damaged PDF). *)
Inductive exn :=
| JSONDecodeError
| TypeError
| AttributeError
| ValueError
| Failure (what : string).

Inductive outcome (A : Type) :=
| Ok (a : A)
| Raise (e : exn).
Arguments Ok {A} a.
Arguments Raise {A} e.

(** A computation over a mutable state [S]: the state is threaded through,
    and is kept as it stands when an exception is raised. *)
Definition M (S A : Type) : Type := S → outcome A * S.

Definition ret {S A} (a : A) : M S A := λ s, (Ok a, s).

Definition raise {S A} (e : exn) : M S A := λ s, (Raise e, s).

Definition bind {S A B} (c : M S A) (k : A → M S B) : M S B :=
  λ s, match c s with
       | (Ok a, s') => k a s'
       | (Raise e, s') => (Raise e, s')
       end.

Definition lift {S A} (o : outcome A) : M S A := λ s, (o, s).

Definition modify {S} (f : S → S) : M S () := λ s, (Ok (), f s).

(** [try: body / except Exception as e: handler e] *)
Definition try_except {S A} (body : M S A) (handler : exn → M S A) : M S A :=
  λ s, match body s with
       | (Ok a, s') => (Ok a, s')
       | (Raise e, s') => handler e s'
       end.

Notation "'let!' x ':=' c 'in' k" := (bind c (λ x, k))
  (at level 10, x name, c at level 100, k at level 200).
Notation "c ';;' k" := (bind c (λ _, k))
  (at level 100, k at level 200, right associativity).

(** A computation that gives [None] is still running when the fuel is
    spent; what follows it is not run. *)
Notation "'let?' x ':=' c 'in' k" :=
  (bind c (λ o, match o with Some x => k | None => ret None end))
  (at level 10, x name, c at level 100, k at level 200).

(** [for x in xs: body x] *)
Fixpoint for_each {S A} (body : A → M S ()) (xs : list A) : M S () :=
  match xs with
  | [] => ret ()
  | x :: rest => body x ;; for_each body rest
  end.

(** ** Data model *)

(** A value decoded from JSON, which is also what a tool receives for each
    keyword argument. A number keeps its lexeme. *)
Inductive json :=
| JNull
| JBool (b : bool)
| JNumber (lexeme : string)
| JString (s : string)
| JArray (items : list json)
| JObject (members : gmap string json).

(** What a tool returns: a [dict] of strings (in insertion order) or [None]. *)
Inductive result :=
| RDict (items : list (string * string))
| RNone.

(** A tool invocation requested by the remote model: [tool_call.id],
    [tool_call.function.name], [tool_call.function.arguments]. *)
Record tool_call := {
  call_id : string;
  function_name : string;
  function_arguments : string
}.

(** [response.choices[0].message] *)
Record chat_message := {
  content : option string;
  tool_calls : option (list tool_call)
}.

(** [response.choices[0]] *)
Record response := {
  finish_reason : string;
  message : chat_message
}.

(** An element of the [messages] list: a plain [dict], or the message object
    of a response appended as it came. *)
Inductive msg :=
| Dict (d : gmap string json)
| Reply (m : chat_message).

(** The assistant object. The API client [self.groq] is a field of [env]. *)
Record Me := {
  name : string;
  knowledge_base_text : string;
  image_paths : list string
}.

(** What the program has sent out: [outbox] holds the [message] field of
    every [requests.post] of [push], oldest first; [sent] holds the message
    sequence of every chat-completion request, oldest first. *)
Record world := {
  outbox : list json;
  sent : list (list msg)
}.

(** The collaborators. *)
Record env := {
  (** [json.loads]; [None] when it raises [JSONDecodeError]. *)
  json_loads : string → option json;
  (** [str(v)] for a value that is not a [str], as an f-string renders it. *)
  str : json → string;
  (** [json.dumps(v)] for a value made of decoded JSON values, strings and
      pairs. *)
  dumps : json → string;
  (** What iterating over a [str] (its characters) or a [dict] (its keys,
      in insertion order) yields. *)
  iter : json → outcome (list json);
  (** Whether the number with this lexeme is zero. *)
  zero : string → bool;
  (** [requests.post] of a notification: the exception it raises, if any. *)
  requests_post : json → option exn;
  (** [self.groq.chat.completions.create]: the answer to the request number
      [n] (from 0) of one [chat] call, given the messages sent. *)
  completions_create : nat → list msg → outcome response;
  (** Calling a name of the module namespace that sends no chat request
      when it is called: the notifications it posts, and the JSON text of
      its result or the exception raised. *)
  foreign_call : string → json → list json * outcome string
}.

(** The file system as [_load_documents] sees it. A PDF opens to its pages,
    each giving the text [extract_text] returns, or the read fails at some
    point (opening, reaching a page, or extracting it). *)
Record filesystem := {
  path_exists : string → bool;
  pdf_pages : string → outcome (list (outcome string));
  file_read : string → outcome string
}.

(** What the module namespace binds a name to, as far as a call through
    [globals().get] can tell. *)
Inductive global_obj :=
| GPush
| GRecordUserDetails
| GRecordUnknownQuestion
| GRespond       (** the UI callback [respond], which calls [me.chat] *)
| GNotCallable   (** a module, dict, list, str or instance: true, not callable *)
| GForeign.      (** a library class or function, a widget, an attribute the
                     interpreter sets, and [Me] and [submit_contact] of this
                     file: calling one sends no chat request *)

(** [gr.update(value=...)] *)
Inductive update :=
| Update (value : string).

(** ** The program *)

Definition newline : string := String "010"%char "".

Section Program.

Context (E : env).

(** What a call of [respond] through the module namespace does, followed by
    [json.dumps] of what it returns: [respond] calls [me.chat], so tool
    dispatch and [chat] depend on each other; the dependency is closed in
    [chat_loop]. *)
Context (reenter : json → M world (option string)).

(** *** Notifier and tools *)

(** [push(text)]: one [requests.post]; whatever it raises propagates. *)
Definition push (text : json) : M world () :=
  λ w, (match requests_post E text with
        | None => Ok ()
        | Some e => Raise e
        end,
        {| outbox := outbox w ++ [text]; sent := sent w |}).

(** [f"{v}"] *)
Definition fmt (v : json) : string :=
  match v with
  | JString s => s
  | _ => str E v
  end.

Definition recorded_ok : result := RDict [("recorded", "ok")].

Definition record_user_details (email name notes : json) : M world result :=
  push (JString ("Recording " +:+ fmt name +:+ " with email " +:+ fmt email
                 +:+ " and notes " +:+ fmt notes)) ;;
  ret recorded_ok.

Definition record_unknown_question (question : json) : M world result :=
  push (JString ("Recording unknown question: " +:+ fmt question)) ;;
  ret recorded_ok.

(** [json.dumps] of a tool result. The keys and values the tools return
    are the literals [recorded] and [ok], which need no escape. *)
Definition quoted (s : string) : string := Str.dq +:+ s +:+ Str.dq.

Fixpoint dumps_items (items : list (string * string)) : string :=
  match items with
  | [] => ""
  | [(k, v)] => quoted k +:+ ": " +:+ quoted v
  | (k, v) :: rest => quoted k +:+ ": " +:+ quoted v +:+ ", " +:+ dumps_items rest
  end.

Definition json_dumps (r : result) : string :=
  match r with
  | RDict items => "{" +:+ dumps_items items +:+ "}"
  | RNone => "null"
  end.

(** The module namespace, [globals()]: the imports (lines 1-7), the
    definitions of the file, the names the [__main__] block binds, and the
    attributes the interpreter gives a module. Any other name is unbound. *)
Definition module_globals : gmap string global_obj :=
  list_to_map
    ([("push", GPush);
      ("record_user_details", GRecordUserDetails);
      ("record_unknown_question", GRecordUnknownQuestion)]
     ++ ((λ n, (n, GNotCallable)) <$>
           ["os"; "json"; "requests"; "gr"; "record_user_details_json";
            "record_unknown_question_json"; "tools"; "custom_css"; "me"])
     ++ [("respond", GRespond)]
     ++ ((λ n, (n, GForeign)) <$>
           ["load_dotenv"; "PdfReader"; "Groq"; "Me"; "submit_contact";
            "demo"; "chatbot"; "textbox"; "submit_btn"; "name_input";
            "email_input"; "contact_submit_btn";
            "__name__"; "__doc__"; "__package__"; "__loader__"; "__spec__";
            "__annotations__"; "__builtins__"; "__file__"; "__cached__"])).

(** Binding [**arguments] to the parameters of a function: the value must be
    a mapping, every required parameter must be among its keys, and every
    key must be a parameter. Anything else is a [TypeError] at the call. *)
Definition bind_kwargs (required optional : list string) (arguments : json)
    : option (gmap string json) :=
  match arguments with
  | JObject kw =>
      if bool_decide (Forall (λ k, is_Some (kw !! k)) required
                      ∧ dom kw ⊆ (list_to_set (required ++ optional) : gset string))
      then Some kw
      else None
  | _ => None
  end.

(** The call [tool( **arguments)] followed by [json.dumps(result)]. A
    parameter left out takes its default. [None] when a chat call nested in
    the tool is still running. *)
Definition call (tool : global_obj) (tool_name : string) (arguments : json)
    : M world (option string) :=
  match tool with
  | GNotCallable => raise TypeError
  | GRespond => reenter arguments
  | GForeign =>
      λ w, (match (foreign_call E tool_name arguments).2 with
            | Ok dumped => Ok (Some dumped)
            | Raise e => Raise e
            end,
            {| outbox := outbox w ++ (foreign_call E tool_name arguments).1;
               sent := sent w |})
  | GPush =>
      match bind_kwargs ["text"] [] arguments with
      | Some kw => push (default JNull (kw !! "text")) ;; ret (Some (json_dumps RNone))
      | None => raise TypeError
      end
  | GRecordUserDetails =>
      match bind_kwargs ["email"] ["name"; "notes"] arguments with
      | Some kw =>
          let! r := record_user_details (default JNull (kw !! "email"))
                      (default (JString "Name not provided") (kw !! "name"))
                      (default (JString "not provided") (kw !! "notes")) in
          ret (Some (json_dumps r))
      | None => raise TypeError
      end
  | GRecordUnknownQuestion =>
      match bind_kwargs ["question"] [] arguments with
      | Some kw =>
          let! r := record_unknown_question (default JNull (kw !! "question")) in
          ret (Some (json_dumps r))
      | None => raise TypeError
      end
  end.

(** The [ToolResult] appended for a tool call. *)
Definition tool_result (content_ tool_call_id : string) : msg :=
  Dict {[ "role" := JString "tool"; "content" := JString content_;
          "tool_call_id" := JString tool_call_id ]}.

(** One iteration of the loop of [handle_tool_call]. *)
Definition handle_one (tc : tool_call) : M world (option msg) :=
  let tool_name := function_name tc in
  let! arguments :=
    match json_loads E (function_arguments tc) with
    | Some v => ret v
    | None => raise JSONDecodeError
    end in
  let tool := module_globals !! tool_name in
  let? dumped :=
    match tool with
    | Some t => call t tool_name arguments
    | None => ret (Some (json_dumps (RDict [])))
    end in
  ret (Some (tool_result dumped (call_id tc))).

Fixpoint handle_loop (tool_calls : list tool_call) (results : list msg)
    : M world (option (list msg)) :=
  match tool_calls with
  | [] => ret (Some results)
  | tc :: rest =>
      let? r := handle_one tc in
      handle_loop rest (results ++ [r])
  end.

(** [Me.handle_tool_call]; [None] when a chat call nested in one of the
    tools is still running. *)
Definition handle_tool_call (tool_calls : list tool_call)
    : M world (option (list msg)) :=
  handle_loop tool_calls [].

End Program.

(** *** Knowledge loader *)

Section Loader.

Context (fs : filesystem).

Definition doc_paths_pdf : list string :=
  ["me/cv.pdf"; "knowledge_base/ManovaLebaku Moses.pdf"].

Definition doc_paths_text : list string := ["me/summary.txt"].

Definition doc_paths_images : list string :=
  ["knowledge_base/certifications/WhatsApp Image 2024-04-18 at 2.59.18 PM (4).jpeg"].

(** [self.knowledge_base_text += chunk] *)
Definition append_text (chunk : string) (me : Me) : Me :=
  {| name := name me;
     knowledge_base_text := knowledge_base_text me +:+ chunk;
     image_paths := image_paths me |}.

Definition set_text (text : string) (me : Me) : Me :=
  {| name := name me; knowledge_base_text := text; image_paths := image_paths me |}.

Definition set_image_paths (paths : list string) (me : Me) : Me :=
  {| name := name me; knowledge_base_text := knowledge_base_text me;
     image_paths := paths |}.

(** [for i, page in enumerate(reader.pages): ...] *)
Fixpoint load_pages (pages : list (outcome string)) : M Me () :=
  match pages with
  | [] => ret ()
  | Raise e :: _ => raise e
  | Ok text :: rest =>
      (if Str.truthy text then modify (append_text (newline +:+ text)) else ret ()) ;;
      load_pages rest
  end.

Definition load_pdf (pdf_path : string) : M Me () :=
  if path_exists fs pdf_path then
    try_except
      (let! pages := lift (pdf_pages fs pdf_path) in load_pages pages)
      (λ _, ret ())
  else ret ().

Definition load_text (txt_path : string) : M Me () :=
  if path_exists fs txt_path then
    try_except
      (let! content_ := lift (file_read fs txt_path) in
       modify (append_text (newline +:+ content_)))
      (λ _, ret ())
  else ret ().

Definition _load_documents : M Me () :=
  modify (set_text "") ;;
  for_each load_pdf doc_paths_pdf ;;
  for_each load_text doc_paths_text ;;
  modify (set_image_paths (filter (λ p, path_exists fs p = true) doc_paths_images)).

End Loader.

(** *** Conversation engine *)

Section Engine.

Context (E : env).

Definition system_prompt (me : Me) : string :=
  "You are acting as " +:+ name me +:+ ", a professional AI assistant representing "
  +:+ name me +:+ " on their personal website.
Your responsibilities include:
- Answering questions ONLY based on the knowledge base below. Do NOT answer if the information is not contained in the knowledge base.
- If you do NOT know the answer from the knowledge base, respond: " +:+ Str.dq
  +:+ "I don't know" +:+ Str.dq +:+ " and record the question.
- Engage professionally and politely.
- Use tools to record unknown questions and user details.
- NEVER make up information or guess beyond the knowledge base.

Knowledge Base Content:
" +:+ knowledge_base_text me +:+ "

Guidelines:
- Be professional, friendly, and helpful.
- Stay strictly on topic about " +:+ name me +:+ "'s professional background.".

(** [{k: v for k, v in item.items() if k not in ('metadata', 'options')}] *)
Definition clean (item : gmap string json) : gmap string json :=
  filter (λ kv, kv.1 ∉ ["metadata"; "options"]) item.

Definition system_message (me : Me) : msg :=
  Dict {[ "role" := JString "system"; "content" := JString (system_prompt me) ]}.

Definition user_message (text : string) : msg :=
  Dict {[ "role" := JString "user"; "content" := JString text ]}.

(** The request number [n] of a [chat] call. *)
Definition create (n : nat) (messages : list msg) : M world response :=
  λ w, (completions_create E n messages,
        {| outbox := outbox w; sent := sent w ++ [messages] |}).

Definition unknown_phrases : list string :=
  ["i don't know"; "cannot answer"; "not in my knowledge base"; "no information"].

(** The lines after the loop: the answer is read, searched for the phrases
    and returned. *)
Definition post_process (message_ : string) (response_ : response) : M world string :=
  let recorded_unknown := false in
  match content (message response_) with
  | None => raise AttributeError
  | Some answer =>
      (if existsb (λ phrase, Str.contains phrase (Str.lower answer)) unknown_phrases
       then
         if negb recorded_unknown
         then record_unknown_question E (JString message_) ;; ret ()
         else ret ()
       else ret ()) ;;
      ret answer
  end.

Definition initial_messages (me : Me) (message_ : string)
    (history : list (gmap string json)) : list msg :=
  [system_message me] ++ (Dict <$> (clean <$> history)) ++ [user_message message_].

(** The body of [Me.chat] around its loop. *)
Definition chat_with (loop : nat → list msg → M world (option response))
    (me : Me) (message_ : string) (history : list (gmap string json))
    : M world (option string) :=
  let! last := loop 0 (initial_messages me message_ history) in
  match last with
  | None => ret None
  | Some response_ =>
      let! answer := post_process message_ response_ in
      ret (Some answer)
  end.

(** *** [respond] reached as a tool

    [respond] is bound in the module namespace, so the remote model can
    name it in a tool request; its arguments are then decoded JSON values,
    not the strings and pairs the UI passes. *)

(** Truth value of a decoded JSON value. *)
Definition truthy_json (v : json) : bool :=
  match v with
  | JNull => false
  | JBool b => b
  | JNumber lexeme => negb (zero E lexeme)
  | JString s => Str.truthy s
  | JArray items => match items with [] => false | _ => true end
  | JObject members => negb (bool_decide (members = ∅))
  end.

(** [for item in v] *)
Definition iterate (v : json) : outcome (list json) :=
  match v with
  | JArray items => Ok items
  | JString _ | JObject _ => iter E v
  | JNull | JBool _ | JNumber _ => Raise TypeError
  end.

(** [user_msg, bot_msg = item] *)
Definition unpack (item : json) : outcome (json * json) :=
  match iterate item with
  | Ok [user_msg; bot_msg] => Ok (user_msg, bot_msg)
  | Ok _ => Raise ValueError
  | Raise e => Raise e
  end.

(** [for user_msg, bot_msg in chat_history: groq_history.append(...)] *)
Fixpoint history_loop (items : list json) (groq_history : list (gmap string json))
    : outcome (list (gmap string json)) :=
  match items with
  | [] => Ok groq_history
  | item :: rest =>
      match unpack item with
      | Ok (user_msg, bot_msg) =>
          history_loop rest
            (groq_history
             ++ [{[ "role" := JString "user"; "content" := user_msg ]}]
             ++ (if truthy_json bot_msg
                 then [{[ "role" := JString "assistant"; "content" := bot_msg ]}]
                 else []))
      | Raise e => Raise e
      end
  end.

(** [respond( **arguments)] followed by [json.dumps]: the function [respond]
    of the source at decoded JSON values, with [me.chat] running the given
    loop. The value returned is the history with the pair of the message
    and the answer appended. *)
Definition respond_tool (me : Me) (loop : nat → list msg → M world (option response))
    (arguments : json) : M world (option string) :=
  match bind_kwargs ["message"; "chat_history"; "name"; "email"] [] arguments with
  | None => raise TypeError
  | Some kw =>
      let chat_history := default JNull (kw !! "chat_history") in
      let name_ := default JNull (kw !! "name") in
      let email := default JNull (kw !! "email") in
      match default JNull (kw !! "message") with
      | JString message_ =>
          if negb (Str.truthy (Str.strip message_)) then ret (Some (dumps E chat_history))
          else
            let! items := lift (iterate chat_history) in
            let! groq_history := lift (history_loop items []) in
            let? response_ := chat_with loop me message_ groq_history in
            match chat_history with
            | JArray turns_ =>
                let chat_history :=
                  JArray (turns_ ++ [JArray [JString message_; JString response_]]) in
                (if truthy_json email then
                   record_user_details E email
                     (if truthy_json name_ then name_ else JString "Name not provided")
                     (JString ("From chat: " +:+ message_)) ;; ret ()
                 else ret ()) ;;
                ret (Some (dumps E chat_history))
            | _ => raise AttributeError
            end
      | _ => raise AttributeError
      end
  end.

(** [while not done: ...], run for at most [fuel] iterations: [None] when the
    loop, or a chat call nested in one of its tool calls, is still running
    after them, otherwise the last response. The assistant [me] is both
    [self] and the module's [me], the one [respond] calls. *)
Fixpoint chat_loop (me : Me) (fuel n : nat) (messages : list msg)
    : M world (option response) :=
  match fuel with
  | 0 => ret None
  | S fuel' =>
      let! response := create n messages in
      if String.eqb (finish_reason response) "tool_calls" then
        let message_obj := message response in
        let! calls :=
          match tool_calls message_obj with
          | Some calls => ret calls
          | None => raise TypeError
          end in
        let? results :=
          handle_tool_call E (respond_tool me (chat_loop me fuel')) calls in
        chat_loop me fuel' (S n) (messages ++ [Reply message_obj] ++ results)
      else ret (Some response)
  end.

(** [Me.chat]; [None] when the loop, or a [chat] call nested in it, needs
    more than [fuel] iterations. *)
Definition chat (me : Me) (fuel : nat) (message_ : string)
    (history : list (gmap string json)) : M world (option string) :=
  chat_with (chat_loop me fuel) me message_ history.

(** *** Presentation layer *)

Definition name_or_default (name_ : string) : string :=
  if Str.truthy name_ then name_ else "Name not provided".

Definition submit_contact (name_ email : string) : M world update :=
  if Str.truthy email then
    record_user_details E (JString email) (JString (name_or_default name_))
      (JString "Submitted via contact form") ;;
    ret (Update "Thank you! Contact info recorded.")
  else
    ret (Update "❗ Please enter your email.").

(** The chat history of the UI: pairs of a user message and the reply, which
    may be absent. *)
Definition turns := list (string * option string).

Fixpoint groq_history (chat_history : turns) : list (gmap string json) :=
  match chat_history with
  | [] => []
  | (user_msg, bot_msg) :: rest =>
      [{[ "role" := JString "user"; "content" := JString user_msg ]}]
      ++ match bot_msg with
         | Some b =>
             if Str.truthy b
             then [{[ "role" := JString "assistant"; "content" := JString b ]}]
             else []
         | None => []
         end
      ++ groq_history rest
  end.

Definition respond (me : Me) (fuel : nat) (message_ : string) (chat_history : turns)
    (name_ email : string) : M world (option turns) :=
  if negb (Str.truthy (Str.strip message_)) then ret (Some chat_history)
  else
    let! answer := chat me fuel message_ (groq_history chat_history) in
    match answer with
    | None => ret None
    | Some response_ =>
        let chat_history := chat_history ++ [(message_, Some response_)] in
        (if Str.truthy email then
           record_user_details E (JString email) (JString (name_or_default name_))
             (JString ("From chat: " +:+ message_)) ;; ret ()
         else ret ()) ;;
        ret (Some chat_history)
    end.

End Engine.

(** ** Specification-side notions *)

Module Spec.

(** The role a message carries; a response message is the assistant's. *)
Definition role (m : msg) : option string :=
  match m with
  | Dict d =>
      match d !! "role" with
      | Some (JString r) => Some r
      | _ => None
      end
  | Reply _ => Some "assistant"
  end.

(** [m] is a ToolResult answering the invocation [tc]. *)
Definition answers (tc : tool_call) (m : msg) : Prop :=
  ∃ text, m = tool_result text (call_id tc).

(** A stretch of messages made of tool rounds only: each round is an
    assistant message requesting invocations, followed at once by one
    ToolResult per invocation, in the order requested. *)
Inductive tool_rounds : list msg → Prop :=
| rounds_none : tool_rounds []
| rounds_more m calls results rest :
    tool_calls m = Some calls →
    Forall2 answers calls results →
    tool_rounds rest →
    tool_rounds ([Reply m] ++ results ++ rest).

(** A request of one [chat] call: the system message built from the
    assistant, the prior turns without the keys the API refuses, the new
    user message, then tool rounds only. *)
Definition well_formed (me : Me) (text : string) (history : list (gmap string json))
    (request : list msg) : Prop :=
  ∃ tail,
    request = [Dict {[ "role" := JString "system";
                       "content" := JString (system_prompt me) ]}]
              ++ (Dict <$> (clean <$> history))
              ++ [Dict {[ "role" := JString "user"; "content" := JString text ]}]
              ++ tail
    ∧ tool_rounds tail.

(** Prior turns as [respond] builds them: user and assistant messages. *)
Definition turn_roles (history : list (gmap string json)) : Prop :=
  Forall (λ item : gmap string json,
            item !! "role" = Some (JString "user")
            ∨ item !! "role" = Some (JString "assistant")) history.

(** The requests sent during one call of [chat] with the message [text] and
    the prior turns [history], oldest first: each request of the call itself
    is well formed for [text] and [history]; between two of them come the
    requests of the [chat] calls nested in the tool calls of that round
    (those the model makes by naming [respond]), each nested call with a
    message and prior turns of its own, and a log of the same shape. *)
Inductive request_log (me : Me)
    : string → list (gmap string json) → list (list msg) → Prop :=
| log_done text history : request_log me text history []
| log_round text history request nested rest :
    well_formed me text history request →
    nested_logs me nested →
    request_log me text history rest →
    request_log me text history (request :: nested ++ rest)
with nested_logs (me : Me) : list (list msg) → Prop :=
| nested_none : nested_logs me []
| nested_call text history log rest :
    turn_roles history →
    request_log me text history log →
    nested_logs me rest →
    nested_logs me (log ++ rest).

(** Reading prior turns back as the pairs the UI keeps: a user message with
    the assistant message that follows it at once, if there is one. *)
Fixpoint turns_of (history : list (gmap string json)) : turns :=
  match history with
  | [] => []
  | item :: rest =>
      match item !! "role", item !! "content" with
      | Some (JString r), Some (JString user_msg) =>
          if String.eqb r "user" then
            match rest with
            | reply :: rest' =>
                match reply !! "role", reply !! "content" with
                | Some (JString r'), Some (JString bot_msg) =>
                    if String.eqb r' "assistant"
                    then (user_msg, Some bot_msg) :: turns_of rest'
                    else (user_msg, None) :: turns_of rest
                | _, _ => (user_msg, None) :: turns_of rest
                end
            | [] => [(user_msg, None)]
            end
          else turns_of rest
      | _, _ => turns_of rest
      end
  end.

(** The history the UI keeps, as the JSON value a tool request must carry
    to pass it to [respond]: a list of pairs, an absent reply being [null]. *)
Definition json_of_turns (chat_history : turns) : json :=
  JArray ((λ turn : string * option string,
             JArray [JString turn.1;
                     match turn.2 with
                     | Some bot_msg => JString bot_msg
                     | None => JNull
                     end]) <$> chat_history).

(** The remote model never names [tool_name] in a tool request. *)
Definition never_requests (E : env) (tool_name : string) : Prop :=
  ∀ n messages r calls,
    completions_create E n messages = Ok r →
    tool_calls (message r) = Some calls →
    Forall (λ tc, function_name tc ≠ tool_name) calls.

(** The answer holds one of the phrases, whatever the case of its letters. *)
Definition says_unknown (answer : string) : Prop :=
  ∃ phrase before after,
    phrase ∈ unknown_phrases ∧ Str.lower answer = before +:+ phrase +:+ after.


(** A model that answers every request with a tool request that can be
    handled. *)
Definition always_requests_tools (E : env) : Prop :=
  ∀ n messages, ∃ r calls,
    completions_create E n messages = Ok r
    ∧ finish_reason r = "tool_calls"
    ∧ tool_calls (message r) = Some calls
    ∧ ∀ reenter w, ∃ results w',
        handle_tool_call E reenter calls w = (Ok (Some results), w').


(** The texts a PDF yields: those of the pages read before the first
    failure, the empty ones left out. *)
Fixpoint page_texts (pages : list (outcome string)) : list string :=
  match pages with
  | Ok text :: rest => (if Str.truthy text then [text] else []) ++ page_texts rest
  | _ => []
  end.

Definition pdf_chunks (fs : filesystem) (path : string) : list string :=
  if path_exists fs path then
    match pdf_pages fs path with
    | Ok pages => page_texts pages
    | Raise _ => []
    end
  else [].

Definition text_chunks (fs : filesystem) (path : string) : list string :=
  if path_exists fs path then
    match file_read fs path with
    | Ok text => [text]
    | Raise _ => []
    end
  else [].

(** The chunks in the configured order: the PDFs page by page, then the
    text file. *)
Definition chunks (fs : filesystem) : list string :=
  concat (pdf_chunks fs <$> doc_paths_pdf) ++ concat (text_chunks fs <$> doc_paths_text).

(** Each chunk is appended to the aggregate after a newline. *)
Definition join_chunks (aggregate : string) (cs : list string) : string :=
  foldl (λ acc c, acc +:+ newline +:+ c) aggregate cs.

Definition knowledge_text (fs : filesystem) : string := join_chunks "" (chunks fs).

Definition images (fs : filesystem) : list string :=
  filter (λ p, path_exists fs p = true) doc_paths_images.

End Spec.

(** Induction over a request log and the logs nested in it. *)
Scheme request_log_mut := Minimality for Spec.request_log Sort Prop
  with nested_logs_mut := Minimality for Spec.nested_logs Sort Prop.

(** ** Sample collaborators, for the examples *)

Module Sample.

(** Read up to the closing quote of a JSON string without escapes. *)
Fixpoint read_string (s : string) : option (string * string) :=
  match s with
  | "" => None
  | String "034"%char r => Some ("", r)
  | String "092"%char _ => None
  | String c r =>
      match read_string r with
      | Some (t, r') => Some (String c t, r')
      | None => None
      end
  end.

(** The members of a flat object of strings, laid out as [json.dumps]
    writes them. *)
Fixpoint read_members (fuel : nat) (s : string) (acc : gmap string json)
    : option json :=
  match fuel with
  | 0 => None
  | S fuel' =>
      match s with
      | String "034"%char r =>
          match read_string r with
          | Some (k, String ":"%char (String " "%char (String "034"%char r1))) =>
              match read_string r1 with
              | Some (v, "}") => Some (JObject (<[k := JString v]> acc))
              | Some (v, String ","%char (String " "%char r2)) =>
                  read_members fuel' r2 (<[k := JString v]> acc)
              | _ => None
              end
          | _ => None
          end
      | _ => None
      end
  end.

(** A decoder for the JSON texts of the examples: the empty object and flat
    objects of strings. It rejects every other text. *)
Definition loads (s : string) : option json :=
  match s with
  | "{}" => Some (JObject ∅)
  | String "{"%char r => read_members (String.length r) r ∅
  | _ => None
  end.

Definition str_of (v : json) : string :=
  match v with
  | JNull => "None"
  | JBool true => "True"
  | JBool false => "False"
  | JNumber lexeme => lexeme
  | JString s => s
  | _ => "<object>"
  end.

Definition object1 (k v : string) : string :=
  "{" +:+ quoted k +:+ ": " +:+ quoted v +:+ "}".

(** [json.dumps] for values whose strings need no escape; an object is
    written without its members. *)
Fixpoint dumps_of (v : json) : string :=
  match v with
  | JNull => "null"
  | JBool true => "true"
  | JBool false => "false"
  | JNumber lexeme => lexeme
  | JString s => quoted s
  | JArray items =>
      "[" +:+ (fix go (l : list json) : string :=
                 match l with
                 | [] => ""
                 | [x] => dumps_of x
                 | x :: rest => dumps_of x +:+ ", " +:+ go rest
                 end) items +:+ "]"
  | JObject _ => "{}"
  end.

(** The characters of an ASCII [str]; an object gives no keys. *)
Fixpoint characters (s : string) : list json :=
  match s with
  | "" => []
  | String c r => JString (String c "") :: characters r
  end.

Definition iter_of (v : json) : outcome (list json) :=
  match v with
  | JString s => Ok (characters s)
  | JObject _ => Ok []
  | _ => Raise TypeError
  end.

Definition zero_of (lexeme : string) : bool :=
  bool_decide (lexeme ∈ ["0"; "-0"; "0.0"; "-0.0"]).

(** An environment whose transport never fails and whose foreign names
    refuse every call, around a given decoder and remote model. *)
Definition env_with (decode : string → option json)
    (model : nat → list msg → outcome response) : env :=
  {| json_loads := decode;
     str := str_of;
     dumps := dumps_of;
     iter := iter_of;
     zero := zero_of;
     requests_post := λ _, None;
     completions_create := model;
     foreign_call := λ _ _, ([], Raise TypeError) |}.

Definition env_of (model : nat → list msg → outcome response) : env :=
  env_with loads model.

Definition requests_tool (id_ name_ arguments_ : string) : response :=
  {| finish_reason := "tool_calls";
     message := {| content := None;
                   tool_calls := Some [{| call_id := id_; function_name := name_;
                                          function_arguments := arguments_ |}] |} |}.

Definition answers_with (text : string) : response :=
  {| finish_reason := "stop";
     message := {| content := Some text; tool_calls := None |} |}.

(** A model that requests a tool on every response. *)
Definition adversary : env :=
  env_of (λ _ _, Ok (requests_tool "call_0" "record_unknown_question"
                       (object1 "question" "again"))).

(** A model that records the question through the tool, then answers that
    it does not know. *)
Definition diligent : env :=
  env_of (λ n _, match n with
                 | 0 => Ok (requests_tool "call_0" "record_unknown_question"
                              (object1 "question" "What is your shoe size?"))
                 | _ => Ok (answers_with "I don't know that.")
                 end).


(** The arguments of [respond] as the model can write them. *)
Definition respond_payload : string :=
  "{" +:+ quoted "message" +:+ ": " +:+ quoted "nested" +:+ ", "
  +:+ quoted "chat_history" +:+ ": [], "
  +:+ quoted "name" +:+ ": " +:+ quoted "" +:+ ", "
  +:+ quoted "email" +:+ ": " +:+ quoted "" +:+ "}".

Definition loads_respond (s : string) : option json :=
  if String.eqb s respond_payload
  then Some (JObject {[ "message" := JString "nested"; "chat_history" := JArray [];
                        "name" := JString ""; "email" := JString "" ]})
  else loads s.

(** The text of the last message of a request. *)
Definition asked (messages : list msg) : string :=
  match last messages with
  | Some (Dict d) =>
      match d !! "content" with
      | Some (JString s) => s
      | _ => ""
      end
  | _ => ""
  end.

(** A model that answers the message [hi] by requesting [respond], and
    anything else with a text. *)
Definition reentrant : env :=
  env_with loads_respond
    (λ _ messages, if String.eqb (asked messages) "hi"
                   then Ok (requests_tool "call_0" "respond" respond_payload)
                   else Ok (answers_with "Done.")).

Definition me0 : Me :=
  {| name := "Manova"; knowledge_base_text := "Manova is an engineer.";
     image_paths := [] |}.

Definition w0 : world := {| outbox := []; sent := [] |}.

(** What a tool request for [respond] runs, inside a [chat] call of [me0]
    that may go on for three more iterations. *)
Definition reenter (E : env) : json → M world (option string) :=
  respond_tool E me0 (chat_loop E me0 3).

(** A file system where the two PDFs are missing and the summary is there. *)
Definition only_summary : filesystem :=
  {| path_exists := λ p, bool_decide (p = "me/summary.txt");
     pdf_pages := λ _, Raise (Failure "FileNotFoundError");
     file_read := λ _, Ok "Summary of Manova." |}.

End Sample.

(** ** The tool descriptions sent to the remote model *)

Definition string_property (description : string) : json :=
  JObject {[ "type" := JString "string"; "description" := JString description ]}.

Definition record_user_details_json : json :=
  JObject
    {[ "name" := JString "record_user_details";
       "description" := JString "Use this tool to record that a user is interested in being in touch and provided an email address";
       "parameters" :=
         JObject
           {[ "type" := JString "object";
              "properties" :=
                JObject
                  {[ "email" := string_property "The email address of this user";
                     "name" := string_property "The user's name, if they provided it";
                     "notes" := string_property "Additional context or notes about the conversation" ]};
              "required" := JArray [JString "email"];
              "additionalProperties" := JBool false ]} ]}.

Definition record_unknown_question_json : json :=
  JObject
    {[ "name" := JString "record_unknown_question";
       "description" := JString "Always use this tool to record any question that couldn't be answered";
       "parameters" :=
         JObject
           {[ "type" := JString "object";
              "properties" :=
                JObject
                  {[ "question" := string_property "The question that couldn't be answered" ]};
              "required" := JArray [JString "question"];
              "additionalProperties" := JBool false ]} ]}.

Definition tools : list json :=
  [JObject {[ "type" := JString "function"; "function" := record_user_details_json ]};
   JObject {[ "type" := JString "function"; "function" := record_unknown_question_json ]}].

(** Reading a tool description, and what it asks of a payload. *)
Module Schema.

Definition field (k : string) (v : json) : option json :=
  match v with
  | JObject o => o !! k
  | _ => None
  end.

(** The description under the [function] key of an element of [tools]. *)
Definition described (tool : json) : option json := field "function" tool.

Definition name_of (schema : json) : option string :=
  match field "name" schema with
  | Some (JString n) => Some n
  | _ => None
  end.

Definition required (schema : json) : list string :=
  match field "parameters" schema ≫= field "required" with
  | Some (JArray names) =>
      omap (λ n, match n with JString k => Some k | _ => None end) names
  | _ => []
  end.

Definition properties (schema : json) : gset string :=
  match field "parameters" schema ≫= field "properties" with
  | Some (JObject o) => dom o
  | _ => ∅
  end.

(** A decoded payload conforms to a description: it is an object, it has
    every required key, it has no key that is not a declared property
    ([additionalProperties] is false), and every value is a string (the
    type every declared property has). *)
Definition conforms (schema : json) (v : json) : Prop :=
  ∃ kw,
    v = JObject kw
    ∧ Forall (λ k, is_Some (kw !! k)) (required schema)
    ∧ dom kw ⊆ properties schema
    ∧ ∀ k x, kw !! k = Some x → ∃ text, x = JString text.

End Schema.

(** A sequence of requests in which each later one extends each earlier
    one. *)
Definition grows (requests : list (list msg)) : Prop :=
  ∀ i j a b, i < j → requests !! i = Some a → requests !! j = Some b →
    a `prefix_of` b ∧ length a < length b.

(** * Properties *)

(** ** Strings *)

Section StringFacts.

Implicit Types s p a b sub : string.

Lemma app_cons c a b : String c a +:+ b = String c (a +:+ b).
Proof. reflexivity. Qed.

Lemma app_empty_l s : "" +:+ s = s.
Proof. reflexivity. Qed.

Lemma app_empty_r s : s +:+ "" = s.
Proof. induction s as [|c s IH]; [done|]. by rewrite app_cons, IH. Qed.

Lemma app_assoc' a b c : (a +:+ b) +:+ c = a +:+ b +:+ c.
Proof. induction a as [|x a IH]; [done|]. by rewrite !app_cons, IH. Qed.

Lemma prefix_app p r : String.prefix p (p +:+ r) = true.
Proof.
  induction p as [|c p IH]; [by destruct r|].
  rewrite app_cons. simpl. destruct (ascii_dec c c); [apply IH | done].
Qed.

Lemma prefix_inv p s : String.prefix p s = true → ∃ r, s = p +:+ r.
Proof.
  revert s. induction p as [|c p IH]; intros s H.
  - by exists s.
  - destruct s as [|d s]; [done|]. simpl in H.
    destruct (ascii_dec c d) as [->|]; [|done].
    destruct (IH _ H) as [r ->]. by exists r.
Qed.

Lemma contains_unfold sub s :
  Str.contains sub s =
  String.prefix sub s || match s with "" => false | String _ r => Str.contains sub r end.
Proof. by destruct s. Qed.

Lemma contains_here sub r : Str.contains sub (sub +:+ r) = true.
Proof. by rewrite contains_unfold, prefix_app. Qed.

Lemma contains_app sub a b : Str.contains sub (a +:+ sub +:+ b) = true.
Proof.
  induction a as [|c a IH]; [rewrite app_empty_l; apply contains_here|].
  rewrite app_cons, contains_unfold, IH. apply orb_true_r.
Qed.

Lemma contains_inv sub s :
  Str.contains sub s = true → ∃ a b, s = a +:+ sub +:+ b.
Proof.
  induction s as [|c s IH]; rewrite contains_unfold; intros H.
  - rewrite orb_false_r in H. destruct (prefix_inv _ _ H) as [r ->].
    by exists "", r.
  - apply orb_true_iff in H as [H|H].
    + destruct (prefix_inv _ _ H) as [r ->]. by exists "", r.
    + destruct (IH H) as (a & b & ->). by exists (String c a), b.
Qed.

(** [sub in s] holds exactly when [s] is [sub] with text around it. *)
Lemma contains_spec sub s :
  Str.contains sub s = true ↔ ∃ a b, s = a +:+ sub +:+ b.
Proof.
  split; [apply contains_inv|]. intros (a & b & ->). apply contains_app.
Qed.

Lemma truthy_spec s : Str.truthy s = true ↔ s ≠ "".
Proof.
  unfold Str.truthy. destruct (String.eqb_spec s ""); split; simpl; congruence.
Qed.

Lemma lstrip_whitespace w s :
  w ∈ Str.whitespace → Str.lstrip (w +:+ s) = Str.lstrip s.
Proof.
  unfold Str.whitespace. simpl. intros Hw.
  repeat (apply elem_of_cons in Hw as [-> | Hw]; [reflexivity|]).
  by apply elem_of_nil in Hw.
Qed.

Lemma lstrip_whitespace_only s : Str.whitespace_only s → Str.lstrip s = "".
Proof.
  induction 1 as [|w s Hw _ IH]; [done|]. by rewrite lstrip_whitespace.
Qed.

(** A message made of white space only strips to the empty string. *)
Lemma strip_whitespace_only s : Str.whitespace_only s → Str.strip s = "".
Proof. intros H. unfold Str.strip. by rewrite lstrip_whitespace_only. Qed.

End StringFacts.

(** ** Tool dispatch *)

#[global] Arguments module_globals : simpl never.
#[global] Arguments bind_kwargs : simpl never.
#[global] Arguments json_dumps : simpl never.
#[global] Arguments tool_result : simpl never.

Ltac run := unfold bind, ret, raise, lift, modify, try_except in *.

Section ToolFacts.

Context (E : env) (reenter : json → M world (option string)).

(** [respond] is the only name of the module namespace bound to the UI
    callback. *)
Lemma globals_respond tool_name :
  module_globals !! tool_name = Some GRespond → tool_name = "respond".
Proof.
  unfold module_globals. intros H%elem_of_list_to_map_2. simpl in H.
  repeat (apply elem_of_cons in H as [H|H]; [by injection H|]).
  by apply elem_of_nil in H.
Qed.

(** Apart from [respond], no tool sends a request to the remote model. *)
Lemma call_sent tool tool_name arguments w :
  tool ≠ GRespond →
  sent (call E reenter tool tool_name arguments w).2 = sent w.
Proof.
  intros Htool.
  destruct tool; try done;
    unfold call, record_user_details, record_unknown_question, push;
    run; repeat case_match; by simplify_eq.
Qed.

Lemma handle_one_sent tc w :
  function_name tc ≠ "respond" →
  sent (handle_one E reenter tc w).2 = sent w.
Proof.
  intros Hname. unfold handle_one. run.
  destruct (json_loads E (function_arguments tc)); [|done].
  destruct (module_globals !! function_name tc) as [tool|] eqn:Htool; [|done].
  assert (tool ≠ GRespond) as Hne by (intros ->; by apply globals_respond in Htool).
  pose proof (call_sent tool (function_name tc) j w Hne) as H.
  destruct (call E reenter tool (function_name tc) j w) as [[[text|]|e] w1]; done.
Qed.

Lemma handle_loop_sent calls results w :
  Forall (λ tc, function_name tc ≠ "respond") calls →
  sent (handle_loop E reenter calls results w).2 = sent w.
Proof.
  intros Hcalls. revert results w.
  induction Hcalls as [|tc calls Htc _ IH]; intros results w; [done|].
  simpl. unfold bind. pose proof (handle_one_sent tc w Htc) as H.
  destruct (handle_one E reenter tc w) as [[[m|]|e] w1]; simpl in *; [|done..].
  by rewrite IH.
Qed.

Lemma handle_tool_call_sent calls w :
  Forall (λ tc, function_name tc ≠ "respond") calls →
  sent (handle_tool_call E reenter calls w).2 = sent w.
Proof. apply handle_loop_sent. Qed.

(** Apart from [respond], a tool returns or raises. *)
Lemma call_returns tool tool_name arguments w :
  tool ≠ GRespond →
  (call E reenter tool tool_name arguments w).1 ≠ Ok None.
Proof.
  intros Htool.
  destruct tool; try done;
    unfold call, record_user_details, record_unknown_question, push;
    run; repeat case_match; by simplify_eq.
Qed.

Lemma handle_one_returns tc w :
  function_name tc ≠ "respond" →
  (handle_one E reenter tc w).1 ≠ Ok None.
Proof.
  intros Hname. unfold handle_one. run.
  destruct (json_loads E (function_arguments tc)); [|done].
  destruct (module_globals !! function_name tc) as [tool|] eqn:Htool; [|done].
  assert (tool ≠ GRespond) as Hne by (intros ->; by apply globals_respond in Htool).
  pose proof (call_returns tool (function_name tc) j w Hne) as H.
  destruct (call E reenter tool (function_name tc) j w) as [[[text|]|e] w1]; done.
Qed.

Lemma handle_loop_returns calls results w :
  Forall (λ tc, function_name tc ≠ "respond") calls →
  (handle_loop E reenter calls results w).1 ≠ Ok None.
Proof.
  intros Hcalls. revert results w.
  induction Hcalls as [|tc calls Htc _ IH]; intros results w; [done|].
  simpl. unfold bind. pose proof (handle_one_returns tc w Htc) as H.
  destruct (handle_one E reenter tc w) as [[[m|]|e] w1]; simpl in *; [|done..].
  apply IH.
Qed.

Lemma handle_tool_call_returns calls w :
  Forall (λ tc, function_name tc ≠ "respond") calls →
  (handle_tool_call E reenter calls w).1 ≠ Ok None.
Proof. apply handle_loop_returns. Qed.

(** Whatever the tools are, the requests sent while a batch is handled are
    those of the calls of [respond]. *)
Lemma handle_one_log (P : list (list msg) → Prop) tc w :
  P [] →
  (∀ arguments w0, ∃ log, sent (reenter arguments w0).2 = sent w0 ++ log ∧ P log) →
  ∃ log, sent (handle_one E reenter tc w).2 = sent w ++ log ∧ P log.
Proof.
  intros Hnil Hhook. unfold handle_one. run.
  destruct (json_loads E (function_arguments tc)) as [v|];
    [|exists []; by rewrite app_nil_r].
  destruct (module_globals !! function_name tc) as [tool|] eqn:Htool;
    [|exists []; by rewrite app_nil_r].
  assert (tool = GRespond ∨ tool ≠ GRespond) as [->|Hne]
    by (destruct tool; (by left) || (by right)).
  - unfold call. destruct (Hhook v w) as (log & Hlog & HP).
    destruct (reenter v w) as [[[text|]|e] w1]; by exists log.
  - pose proof (call_sent tool (function_name tc) v w Hne) as H.
    destruct (call E reenter tool (function_name tc) v w) as [[[text|]|e] w1];
      simpl in H; exists []; by rewrite app_nil_r.
Qed.

Lemma handle_loop_log (P : list (list msg) → Prop) :
  P [] →
  (∀ a b, P a → P b → P (a ++ b)) →
  (∀ arguments w0, ∃ log, sent (reenter arguments w0).2 = sent w0 ++ log ∧ P log) →
  ∀ calls results w,
    ∃ log, sent (handle_loop E reenter calls results w).2 = sent w ++ log ∧ P log.
Proof.
  intros Hnil Happ Hhook calls.
  induction calls as [|tc calls IH]; intros results w.
  - exists []. by rewrite app_nil_r.
  - simpl. unfold bind.
    destruct (handle_one_log P tc w Hnil Hhook) as (log1 & H1 & HP1).
    destruct (handle_one E reenter tc w) as [[[m|]|e] w1]; simpl in H1;
      [|by exists log1..].
    destruct (IH (results ++ [m]) w1) as (log2 & -> & HP2).
    exists (log1 ++ log2). rewrite H1, <- app_assoc. auto.
Qed.

(** A tool call that does not raise yields the ToolResult of that call. *)
Lemma handle_one_answers tc w m w' :
  handle_one E reenter tc w = (Ok (Some m), w') → Spec.answers tc m.
Proof.
  unfold handle_one. run. intros H.
  destruct (json_loads E (function_arguments tc)); [|done].
  destruct (module_globals !! function_name tc) as [tool|].
  - destruct (call E reenter tool (function_name tc) j w) as [[[text|]|e] w1];
      [|done..]. simplify_eq. by eexists.
  - simplify_eq. by eexists.
Qed.

Lemma handle_loop_answers calls results w out w' :
  handle_loop E reenter calls results w = (Ok (Some out), w') →
  ∃ new, out = results ++ new ∧ Forall2 Spec.answers calls new.
Proof.
  revert results w. induction calls as [|tc calls IH]; intros results w H.
  - simpl in H. run. simplify_eq. exists []. by rewrite app_nil_r.
  - simpl in H. unfold bind in H.
    destruct (handle_one E reenter tc w) as [[[m|]|e] w1] eqn:Hone; [|done..].
    destruct (IH _ _ H) as (new & -> & Hnew).
    exists (m :: new). split; [by rewrite <- app_assoc|].
    constructor; [by eapply handle_one_answers|done].
Qed.

(** [handle_tool_call] returns one ToolResult per invocation, in order, each
    with the id of its invocation. *)
Lemma handle_tool_call_answers calls w out w' :
  handle_tool_call E reenter calls w = (Ok (Some out), w') →
  Forall2 Spec.answers calls out.
Proof.
  intros H. by destruct (handle_loop_answers _ _ _ _ _ H) as (new & -> & ?).
Qed.



Lemma handle_loop_results calls results w :
  handle_loop E reenter calls results w
  = match handle_loop E reenter calls [] w with
    | (Ok (Some new), w') => (Ok (Some (results ++ new)), w')
    | (Ok None, w') => (Ok None, w')
    | (Raise e, w') => (Raise e, w')
    end.
Proof.
  revert results w. induction calls as [|tc calls IH]; intros results w.
  - simpl. unfold ret. by rewrite app_nil_r.
  - simpl. unfold bind. destruct (handle_one E reenter tc w) as [[[m|]|e] w1]; [|done..].
    rewrite (IH (results ++ [m])), (IH ([] ++ [m])).
    destruct (handle_loop E reenter calls [] w1) as [[[new|]|e] w2]; [|done..].
    by rewrite <- app_assoc.
Qed.

Lemma handle_loop_app first second results w :
  handle_loop E reenter (first ++ second) results w
  = match handle_loop E reenter first results w with
    | (Ok (Some results1), w1) => handle_loop E reenter second results1 w1
    | (Ok None, w1) => (Ok None, w1)
    | (Raise e, w1) => (Raise e, w1)
    end.
Proof.
  revert results w. induction first as [|tc first IH]; intros results w; [done|].
  simpl. unfold bind. destruct (handle_one E reenter tc w) as [[[m|]|e] w1]; [|done..].
  apply IH.
Qed.

End ToolFacts.

(** A batch that is handled to the end when [respond] cannot be run does
    not call it: it is handled alike whatever [respond] does, and sends no
    request. *)
Lemma handle_one_without_reentry E reenter tc w m w' :
  handle_one E (λ _, ret None) tc w = (Ok (Some m), w') →
  handle_one E reenter tc w = (Ok (Some m), w') ∧ sent w' = sent w.
Proof.
  unfold handle_one. run.
  destruct (json_loads E (function_arguments tc)) as [v|]; [|done].
  destruct (module_globals !! function_name tc) as [tool|];
    [|intros; by simplify_eq].
  destruct tool; try done; intros H; (split; [exact H|]).
  all: match type of H with
       | context [call ?env ?hook ?tool ?tool_name ?v ?w] =>
           pose proof (call_sent env hook tool tool_name v w ltac:(done)) as Hsent;
           destruct (call env hook tool tool_name v w) as [[[text|]|e] w1]
       end; by simplify_eq.
Qed.

Lemma handle_loop_without_reentry E reenter calls : ∀ results w out w',
  handle_loop E (λ _, ret None) calls results w = (Ok (Some out), w') →
  handle_loop E reenter calls results w = (Ok (Some out), w') ∧ sent w' = sent w.
Proof.
  induction calls as [|tc calls IH]; intros results w out w' H.
  - simpl in *. run. by simplify_eq.
  - simpl in *. unfold bind in *.
    destruct (handle_one E (λ _, ret None) tc w) as [[[m|]|e] w1] eqn:Hone; [|done..].
    apply (handle_one_without_reentry E reenter) in Hone as [-> Hsent].
    destruct (IH _ _ _ _ H) as [-> Hsent']. split; [done|congruence].
Qed.

(** ** Conversation engine *)

Section EngineFacts.

Context (E : env) (me : Me).

Lemma tool_rounds_app xs ys :
  Spec.tool_rounds xs → Spec.tool_rounds ys → Spec.tool_rounds (xs ++ ys).
Proof.
  induction 1 as [|m calls results rest Hm Hres _ IH]; intros Hys; [done|].
  rewrite <- !app_assoc. econstructor; eauto.
Qed.

Lemma tool_rounds_snoc tail m calls results :
  Spec.tool_rounds tail → tool_calls m = Some calls →
  Forall2 Spec.answers calls results →
  Spec.tool_rounds (tail ++ [Reply m] ++ results).
Proof.
  intros Htail Hm Hres. apply tool_rounds_app; [done|].
  rewrite <- (app_nil_r results). econstructor; eauto. constructor.
Qed.

Lemma initial_well_formed text history tail :
  Spec.tool_rounds tail →
  Spec.well_formed me text history (initial_messages me text history ++ tail).
Proof.
  intros Htail. exists tail. split; [|done].
  unfold initial_messages, system_message, user_message. simpl.
  by rewrite <- app_assoc.
Qed.

Lemma post_process_sent text r w : sent (post_process E text r w).2 = sent w.
Proof.
  unfold post_process, record_unknown_question, push. run.
  repeat case_match; by simplify_eq.
Qed.

Lemma record_user_details_sent email name_ notes w :
  sent (record_user_details E email name_ notes w).2 = sent w.
Proof.
  unfold record_user_details, push. run. repeat case_match; by simplify_eq.
Qed.

Lemma chat_with_sent loop text history w :
  sent (chat_with E loop me text history w).2
  = sent (loop 0 (initial_messages me text history) w).2.
Proof.
  unfold chat_with, bind.
  destruct (loop 0 (initial_messages me text history) w)
    as [[[r|]|e] w1]; simpl; try done.
  pose proof (post_process_sent text r w1) as H.
  destruct (post_process E text r w1) as [[a|e] w2]; done.
Qed.

Lemma chat_sent_loop fuel text history w :
  sent (chat E me fuel text history w).2
  = sent (chat_loop E me fuel 0 (initial_messages me text history) w).2.
Proof. apply chat_with_sent. Qed.

(** The turns [respond] builds carry the roles [user] and [assistant]. *)
Lemma history_loop_roles items : ∀ groq_history out,
  Spec.turn_roles groq_history →
  history_loop E items groq_history = Ok out →
  Spec.turn_roles out.
Proof.
  induction items as [|item items IH]; intros acc out Hacc Hout.
  - simpl in Hout. by injection Hout as <-.
  - simpl in Hout. destruct (unpack E item) as [[user_msg bot_msg]|e]; [|done].
    apply (IH _ _) in Hout; [done|].
    apply Forall_app. split; [done|].
    constructor; [left; apply lookup_insert_eq|].
    destruct (truthy_json E bot_msg); constructor;
      [right; apply lookup_insert_eq|constructor].
Qed.

Lemma nested_logs_app a b :
  Spec.nested_logs me a → Spec.nested_logs me b → Spec.nested_logs me (a ++ b).
Proof.
  induction 1 as [|text history log rest Hroles Hlog _ IH]; intros Hb; [done|].
  rewrite <- app_assoc. econstructor; eauto.
Qed.

(** The requests sent during a call of [respond] made by the model are
    those of the [chat] call inside it. *)
Lemma respond_tool_log loop :
  (∀ text history w, Spec.turn_roles history →
     ∃ log, sent (loop 0 (initial_messages me text history) w).2 = sent w ++ log
            ∧ Spec.request_log me text history log) →
  ∀ arguments w,
    ∃ log, sent (respond_tool E me loop arguments w).2 = sent w ++ log
           ∧ Spec.nested_logs me log.
Proof.
  intros Hloop arguments w.
  assert (∃ log, sent w = sent w ++ log ∧ Spec.nested_logs me log) as Hnone.
  { exists []. rewrite app_nil_r. split; [done|constructor]. }
  unfold respond_tool.
  destruct (bind_kwargs _ _ arguments) as [kw|]; [|exact Hnone].
  destruct (default JNull (kw !! "message")) as [| | |message_| |]; try exact Hnone.
  destruct (negb _); [exact Hnone|].
  unfold bind at 1, lift at 1.
  destruct (iterate E _) as [items|e]; [|exact Hnone].
  unfold bind at 1, lift at 1.
  destruct (history_loop E items []) as [history|e] eqn:Hhistory; [|exact Hnone].
  unfold bind at 1.
  destruct (Hloop message_ history w) as (log & Hlog & Hreq).
  { eapply history_loop_roles; [|exact Hhistory]. constructor. }
  rewrite <- chat_with_sent in Hlog.
  assert (Spec.nested_logs me log) as Hnested.
  { rewrite <- (app_nil_r log). econstructor; [|exact Hreq|constructor].
    eapply history_loop_roles; [|exact Hhistory]. constructor. }
  destruct (chat_with E loop me message_ history w) as [[[answer|]|e] w1];
    simpl in Hlog; [|by exists log..].
  destruct (default JNull (kw !! "chat_history")); try (by exists log).
  exists log. split; [|done]. rewrite <- Hlog.
  destruct (truthy_json E _); [|done].
  unfold bind.
  pose proof (record_user_details_sent
                (default JNull (kw !! "email"))
                (if truthy_json E (default JNull (kw !! "name"))
                 then default JNull (kw !! "name") else JString "Name not provided")
                (JString ("From chat: " +:+ message_)) w1) as Hsent.
  destruct (record_user_details E _ _ _ w1) as [[r|e] w2]; done.
Qed.

(** The requests of the loop and of the [chat] calls nested in its tool
    calls. *)
Lemma chat_loop_log fuel : ∀ n text history start tail w,
  start = initial_messages me text history →
  Spec.tool_rounds tail →
  ∃ requests,
    sent (chat_loop E me fuel n (start ++ tail) w).2 = sent w ++ requests
    ∧ Spec.request_log me text history requests.
Proof.
  induction fuel as [|fuel IH]; intros n text history start tail w Hstart Htail.
  - exists []. rewrite app_nil_r. split; [done|constructor].
  - assert (Spec.request_log me text history [start ++ tail]) as Hone.
    { change [start ++ tail] with ((start ++ tail) :: [] ++ []). subst start.
      constructor; [by apply initial_well_formed|constructor|constructor]. }
    simpl. unfold bind at 1, create at 1.
    destruct (completions_create E n (start ++ tail)) as [r|e]; simpl.
    2: { by exists [start ++ tail]. }
    destruct (String.eqb (finish_reason r) "tool_calls").
    2: { by exists [start ++ tail]. }
    unfold bind at 1.
    destruct (tool_calls (message r)) as [calls|] eqn:Hcalls; simpl.
    2: { by exists [start ++ tail]. }
    unfold bind at 1.
    set (w1 := {| outbox := outbox w; sent := sent w ++ [start ++ tail] |}).
    assert (∀ arguments w0,
              ∃ log, sent (respond_tool E me (chat_loop E me fuel) arguments w0).2
                     = sent w0 ++ log ∧ Spec.nested_logs me log) as Hhook.
    { apply respond_tool_log. intros text' history' w0 _.
      destruct (IH 0 text' history' (initial_messages me text' history') [] w0)
        as (log & Hlog & Hreq); [done|constructor|].
      rewrite app_nil_r in Hlog. by exists log. }
    destruct (handle_loop_log E _ (Spec.nested_logs me) (Spec.nested_none me)
                nested_logs_app Hhook calls [] w1) as (nested & Hnested & Hlogs).
    fold (handle_tool_call E (respond_tool E me (chat_loop E me fuel)) calls w1)
      in Hnested.
    assert (Spec.request_log me text history ((start ++ tail) :: nested ++ [])) as Hstop.
    { subst start. constructor; [by apply initial_well_formed|done|constructor]. }
    rewrite app_nil_r in Hstop.
    destruct (handle_tool_call E _ calls w1) as [[[results|]|e] w2] eqn:Hres;
      simpl in Hnested.
    + apply handle_tool_call_answers in Hres.
      rewrite <- (app_assoc start tail (Reply (message r) :: results)).
      destruct (IH (S n) text history start (tail ++ Reply (message r) :: results) w2)
        as (rest & -> & Hrest); [done|by apply (tool_rounds_snoc tail _ calls)|].
      exists ((start ++ tail) :: nested ++ rest). rewrite Hnested. subst w1. simpl.
      split; [by rewrite <- !app_assoc|].
      subst start. constructor; [by apply initial_well_formed|done..].
    + exists ((start ++ tail) :: nested). simpl. rewrite Hnested. subst w1. simpl.
      split; [by rewrite <- app_assoc|done].
    + exists ((start ++ tail) :: nested). simpl. rewrite Hnested. subst w1. simpl.
      split; [by rewrite <- app_assoc|done].
Qed.

(** One iteration of the loop that meets a tool request and handles it. *)
Lemma chat_loop_tool_round fuel n messages w r calls results w2 :
  completions_create E n messages = Ok r →
  finish_reason r = "tool_calls" →
  tool_calls (message r) = Some calls →
  handle_tool_call E (respond_tool E me (chat_loop E me fuel)) calls
    {| outbox := outbox w; sent := sent w ++ [messages] |}
    = (Ok (Some results), w2) →
  chat_loop E me (S fuel) n messages w
  = chat_loop E me fuel (S n) (messages ++ [Reply (message r)] ++ results) w2.
Proof.
  intros Hr Hreason Hcalls Hres. simpl. unfold bind at 1, create at 1.
  rewrite Hr, Hreason. simpl. unfold bind at 1. rewrite Hcalls. simpl.
  unfold bind at 1. by rewrite Hres.
Qed.


(** The phrase search of [chat] decides [Spec.says_unknown]. *)
Lemma says_unknown_iff answer :
  existsb (λ phrase, Str.contains phrase (Str.lower answer)) unknown_phrases = true
  ↔ Spec.says_unknown answer.
Proof.
  rewrite existsb_exists. unfold Spec.says_unknown. split.
  - intros (phrase & Hin & Hc). apply list_elem_of_In in Hin.
    apply contains_spec in Hc as (a & b & Hc). eauto.
  - intros (phrase & a & b & Hin & Heq). exists phrase.
    split; [by apply list_elem_of_In|]. apply contains_spec. eauto.
Qed.

End EngineFacts.

(** ** Knowledge loader *)

Section LoaderFacts.

Context (fs : filesystem).

Lemma join_chunks_app text xs ys :
  Spec.join_chunks text (xs ++ ys) = Spec.join_chunks (Spec.join_chunks text xs) ys.
Proof. apply foldl_app. Qed.

Lemma join_chunks_from text cs :
  Spec.join_chunks text cs = text +:+ Spec.join_chunks "" cs.
Proof.
  revert text. induction cs as [|c cs IH]; intros text; simpl.
  - by rewrite app_empty_r.
  - rewrite IH, (IH ("" +:+ newline +:+ c)), app_empty_l. by rewrite !app_assoc'.
Qed.

(** Every chunk is in the joined text, after its newline. *)
Lemma join_chunks_contains text cs c :
  c ∈ cs → Str.contains (newline +:+ c) (Spec.join_chunks text cs) = true.
Proof.
  intros (xs & ys & ->)%list_elem_of_split.
  rewrite join_chunks_app. simpl.
  rewrite (join_chunks_from _ ys), app_assoc'. apply contains_app.
Qed.

(** The pages read extend the text by their chunks, whether or not the read
    fails on the way. *)
Lemma load_pages_text pages me :
  (load_pages pages me).2
  = set_text (Spec.join_chunks (knowledge_base_text me) (Spec.page_texts pages)) me.
Proof.
  revert me. induction pages as [|[text|e] pages IH]; intros [n t i]; try done.
  simpl. unfold bind at 1.
  destruct (Str.truthy text); simpl; unfold bind; rewrite (surjective_pairing (load_pages _ _)), IH;
    by destruct (load_pages pages _).1.
Qed.

Lemma load_pdf_spec path me :
  load_pdf fs path me
  = (Ok (), set_text (Spec.join_chunks (knowledge_base_text me)
                        (Spec.pdf_chunks fs path)) me).
Proof.
  unfold load_pdf, Spec.pdf_chunks. destruct me as [n t i].
  destruct (path_exists fs path); [|done].
  unfold try_except, bind, lift.
  destruct (pdf_pages fs path) as [pages|e]; [|done].
  pose proof (load_pages_text pages {| name := n; knowledge_base_text := t;
                                       image_paths := i |}) as H.
  destruct (load_pages pages _) as [[[]|e] me']; simpl in H; by subst.
Qed.

Lemma load_text_spec path me :
  load_text fs path me
  = (Ok (), set_text (Spec.join_chunks (knowledge_base_text me)
                        (Spec.text_chunks fs path)) me).
Proof.
  unfold load_text, Spec.text_chunks. destruct me as [n t i].
  destruct (path_exists fs path); [|done].
  unfold try_except, bind, lift. by destruct (file_read fs path).
Qed.

Lemma for_each_load (load : string → M Me ()) (chunks_of : string → list string) :
  (∀ path me, load path me
     = (Ok (), set_text (Spec.join_chunks (knowledge_base_text me) (chunks_of path)) me)) →
  ∀ paths me, for_each load paths me
     = (Ok (), set_text (Spec.join_chunks (knowledge_base_text me)
                           (concat (chunks_of <$> paths))) me).
Proof.
  intros Hload paths. induction paths as [|p paths IH]; intros me.
  - by destruct me.
  - simpl. unfold bind. rewrite Hload, IH, join_chunks_app. by destruct me.
Qed.

(** What [_load_documents] leaves in the assistant: it never raises, the text
    is the configured chunks joined, the images are those that exist. *)
Lemma load_documents_spec me :
  _load_documents fs me
  = (Ok (), {| name := name me; knowledge_base_text := Spec.knowledge_text fs;
               image_paths := Spec.images fs |}).
Proof.
  unfold _load_documents, bind, modify.
  rewrite (for_each_load _ _ load_pdf_spec), (for_each_load _ _ load_text_spec).
  unfold Spec.knowledge_text, Spec.chunks. by rewrite join_chunks_app.
Qed.

Lemma page_texts_elem pages text :
  Ok text ∈ pages → (∀ e, Raise e ∉ pages) → text ≠ "" →
  text ∈ Spec.page_texts pages.
Proof.
  intros Hin Hgood Hne. induction pages as [|[t|e] pages IH].
  - by apply elem_of_nil in Hin.
  - simpl. apply elem_of_app. apply elem_of_cons in Hin as [[= <-]|Hin].
    + left. apply truthy_spec in Hne. rewrite Hne. apply list_elem_of_here.
    + right. apply IH; [done|]. intros e He. apply (Hgood e). by right.
  - destruct (Hgood e). by left.
Qed.

End LoaderFacts.

(** * The claims *)

(** ** Post-processing of the answer (C1) *)

(** C1. When the loop of [chat] has ended with a textual answer, the lines
    after the loop post exactly one notification, [Recording unknown
    question: <the user's message>], if the lower-cased answer holds one of
    the four phrases, and none otherwise; what the loop did before (the
    outbox [w1] it left, which may already hold a notification the model
    asked for) plays no part. *)
Theorem chat_post_processing_notifies E me fuel text history w r w1 answer :
  chat_loop E me fuel 0 (initial_messages me text history) w = (Ok (Some r), w1) →
  content (message r) = Some answer →
  ∃ o w2,
    chat E me fuel text history w = (o, w2)
    ∧ sent w2 = sent w1
    ∧ (Spec.says_unknown answer →
       outbox w2 = outbox w1 ++ [JString ("Recording unknown question: " +:+ text)]
       ∧ (requests_post E (JString ("Recording unknown question: " +:+ text)) = None →
          o = Ok (Some answer)))
    ∧ (¬ Spec.says_unknown answer → outbox w2 = outbox w1 ∧ o = Ok (Some answer)).
Proof.
  intros Hloop Hanswer. unfold chat, chat_with, bind. rewrite Hloop.
  unfold post_process, bind. rewrite Hanswer.
  pose proof (says_unknown_iff answer) as Hiff.
  destruct (existsb _ unknown_phrases) eqn:Hsearch; simpl.
  - unfold record_unknown_question, push, bind, ret; simpl.
    destruct (requests_post E _) eqn:Hpost; eexists _, _; (split; [reflexivity|]);
      simpl; (split; [done|]); split; try done.
    + intros Hno. destruct Hno. by apply Hiff.
    + intros Hno. destruct Hno. by apply Hiff.
  - unfold ret. eexists _, _. split; [reflexivity|]. split; [done|]. split; [|done].
    intros Hyes. apply Hiff in Hyes. done.
Qed.

(** The model of [Sample.diligent] records the question through the tool
    and then answers that it does not know: the operator is notified twice,
    once by the tool call and once by the lines after the loop. *)
Lemma chat_post_processing_notifies_witness :
  outbox (chat Sample.diligent Sample.me0 5 "What is your shoe size?" [] Sample.w0).2
  = [JString "Recording unknown question: What is your shoe size?";
     JString "Recording unknown question: What is your shoe size?"].
Proof.
  destruct (chat_post_processing_notifies Sample.diligent Sample.me0 5
              "What is your shoe size?" [] Sample.w0
              (Sample.answers_with "I don't know that.")
              (chat_loop Sample.diligent Sample.me0 5 0
                 (initial_messages Sample.me0 "What is your shoe size?" [])
                 Sample.w0).2
              "I don't know that.")
    as (o & w2 & Hchat & _ & Hyes & _).
  - vm_compute. reflexivity.
  - reflexivity.
  - rewrite Hchat. simpl. destruct Hyes as [-> _].
    + exists "i don't know", "", " that.". split; [|reflexivity].
      apply list_elem_of_here.
    + vm_compute. reflexivity.
Defined.

(** ** The tool-calling loop has no round bound (C2) *)

Lemma adversary_round reenter w :
  handle_tool_call Sample.adversary reenter
     [{| call_id := "call_0"; function_name := "record_unknown_question";
         function_arguments := Sample.object1 "question" "again" |}] w
  = (Ok (Some [tool_result (json_dumps recorded_ok) "call_0"]),
     {| outbox := outbox w ++ [JString "Recording unknown question: again"];
        sent := sent w |}).
Proof. vm_compute. reflexivity. Qed.

(** Against such a model the loop is still running after any number of
    iterations, one request sent in each. *)
Lemma chat_loop_runs_on E me fuel :
  Spec.always_requests_tools E →
  ∀ n messages w,
    ∃ w', chat_loop E me fuel n messages w = (Ok None, w')
          ∧ length (sent w') = length (sent w) + fuel.
Proof.
  intros Halways. induction fuel as [|fuel IH]; intros n messages w.
  - exists w. split; [done|lia].
  - destruct (Halways n messages) as (r & calls & Hr & Hreason & Hcalls & Hhandle).
    destruct (Hhandle (λ _, ret None)
                {| outbox := outbox w; sent := sent w ++ [messages] |})
      as (results & w2 & Hres).
    apply (handle_loop_without_reentry E (respond_tool E me (chat_loop E me fuel)))
      in Hres as [Hres Hsent].
    simpl in Hsent.
    erewrite chat_loop_tool_round by eassumption.
    edestruct IH as (w' & -> & Hlen). exists w'. split; [done|].
    rewrite Hlen, Hsent, length_app. simpl. lia.
Qed.

Lemma adversary_never_stops : Spec.always_requests_tools Sample.adversary.
Proof.
  intros n messages. eexists _, _. split; [reflexivity|].
  split; [reflexivity|]. split; [reflexivity|].
  intros reenter w. eexists _, _. apply adversary_round.
Qed.

(** C2, counterexample. Against a model that requests a tool on every
    response, [chat] is still in its loop after any number of rounds, having
    sent that many requests: there is no round count it stops at. *)
Lemma chat_loop_has_no_bound :
  (∀ n messages, ∃ r, completions_create Sample.adversary n messages = Ok r
                      ∧ finish_reason r = "tool_calls")
  ∧ (∀ fuel, ∃ w', chat Sample.adversary Sample.me0 fuel "hi" [] Sample.w0 = (Ok None, w')
                   ∧ length (sent w') = fuel).
Proof.
  split.
  - intros n messages. eexists. split; reflexivity.
  - intros fuel.
    destruct (chat_loop_runs_on Sample.adversary Sample.me0 fuel adversary_never_stops
                0 (initial_messages Sample.me0 "hi" []) Sample.w0)
      as (w' & Hloop & Hlen).
    exists w'. unfold chat, chat_with, bind. rewrite Hloop.
    split; [done|]. simpl in Hlen. lia.
Qed.

(** When the model never names [respond], handling a tool request sends
    nothing, and the loop ends with the first response that requests no
    tool. *)
Lemma chat_loop_ends E me k : ∀ fuel n messages w,
  Spec.never_requests E "respond" →
  (∀ msgs r, completions_create E (n + k) msgs = Ok r → finish_reason r ≠ "tool_calls") →
  k < fuel →
  ∃ o w', chat_loop E me fuel n messages w = (o, w')
          ∧ o ≠ Ok None
          ∧ length (sent w') ≤ length (sent w) + S k.
Proof.
  induction k as [|k IH]; intros fuel n messages w Hnever Hstop Hfuel;
    (destruct fuel as [|fuel]; [lia|]); simpl; unfold bind at 1, create at 1.
  - destruct (completions_create E n messages) as [r|e] eqn:Hr.
    + rewrite Nat.add_0_r in Hstop. apply Hstop in Hr.
      destruct (String.eqb_spec (finish_reason r) "tool_calls"); [done|].
      eexists _, _. split; [reflexivity|]. split; [done|].
      simpl. rewrite length_app. simpl. lia.
    + eexists _, _. split; [reflexivity|]. split; [done|].
      simpl. rewrite length_app. simpl. lia.
  - pose proof (length_app (sent w) [messages]) as Hw1. simpl in Hw1.
    destruct (completions_create E n messages) as [r|e] eqn:Hr.
    2: { eexists _, _. split; [reflexivity|]. split; [done|]. simpl. lia. }
    destruct (String.eqb (finish_reason r) "tool_calls").
    2: { eexists _, _. split; [reflexivity|]. split; [done|]. simpl. lia. }
    unfold bind at 1. destruct (tool_calls (message r)) as [calls|] eqn:Hcalls; simpl.
    2: { eexists _, _. split; [reflexivity|]. split; [done|]. simpl. lia. }
    unfold bind at 1.
    pose proof (handle_tool_call_sent E (respond_tool E me (chat_loop E me fuel)) calls
                  {| outbox := outbox w; sent := sent w ++ [messages] |}
                  (Hnever n messages r calls Hr Hcalls)) as Hsent.
    pose proof (handle_tool_call_returns E (respond_tool E me (chat_loop E me fuel)) calls
                  {| outbox := outbox w; sent := sent w ++ [messages] |}
                  (Hnever n messages r calls Hr Hcalls)) as Hreturns.
    destruct (handle_tool_call E _ calls _) as [[[results|]|e] w2]; simpl in Hsent;
      apply (f_equal length) in Hsent; rewrite Hw1 in Hsent; [|done|].
    2: { eexists _, _. split; [reflexivity|]. split; [done|]. simpl. lia. }
    destruct (IH fuel (S n) (messages ++ [Reply (message r)] ++ results) w2)
      as (o & w' & Hloop & Ho & Hlen); [done| |lia|].
    { intros msgs r' Hr'. apply (Hstop msgs). by rewrite <- Nat.add_succ_comm. }
    exists o, w'. split; [exact Hloop|]. split; [done|]. lia.
Qed.

Lemma diligent_never_reenters : Spec.never_requests Sample.diligent "respond".
Proof.
  intros [|n] messages r calls Hr Hcalls.
  - change (Ok (Sample.requests_tool "call_0" "record_unknown_question"
                  (Sample.object1 "question" "What is your shoe size?")) = Ok r) in Hr.
    injection Hr as <-. injection Hcalls as <-. by repeat constructor.
  - change (Ok (Sample.answers_with "I don't know that.") = Ok r) in Hr.
    by injection Hr as <-.
Qed.

(** C2, amended. [chat] has no maximum round count; its loop ends at the
    first response that does not request tools, or at the first exception.
    If the model never names [respond] in a tool request and cannot answer
    request number [k] with a tool request, then [chat] returns or raises
    after at most [k + 1] requests. Against a model that answers every
    request with a tool request that can be handled, the loop is still
    running after any number of rounds, one request sent in each. *)
Theorem chat_ends_when_model_stops E me fuel text history w :
  (Spec.never_requests E "respond" →
   ∀ k,
     (∀ msgs r, completions_create E k msgs = Ok r → finish_reason r ≠ "tool_calls") →
     k < fuel →
     ∃ o w', chat E me fuel text history w = (o, w')
             ∧ o ≠ Ok None
             ∧ length (sent w') ≤ length (sent w) + S k)
  ∧ (Spec.always_requests_tools E →
     ∃ w', chat E me fuel text history w = (Ok None, w')
           ∧ length (sent w') = length (sent w) + fuel).
Proof.
  split.
  - intros Hnever k Hstop Hfuel.
    destruct (chat_loop_ends E me k fuel 0 (initial_messages me text history) w
                Hnever Hstop Hfuel)
      as (o & w1 & Hloop & Ho & Hlen).
    pose proof (chat_sent_loop E me fuel text history w) as Hsent.
    unfold chat, chat_with, bind in *. rewrite Hloop in *. simpl in Hsent.
    destruct o as [[r|]|e]; [|done|].
    + destruct (post_process E text r w1) as [[answer|e] w2]; simpl in Hsent;
        eexists _, _; (split; [reflexivity|]); (split; [done|]); simpl; by rewrite Hsent.
    + eexists _, _. split; [reflexivity|]. split; [done|]. done.
  - intros Halways.
    destruct (chat_loop_runs_on E me fuel Halways 0 (initial_messages me text history) w)
      as (w' & Hloop & Hlen).
    exists w'. unfold chat, chat_with, bind. by rewrite Hloop.
Qed.

Lemma chat_ends_when_model_stops_witness :
  ∃ o w', chat Sample.diligent Sample.me0 5 "What is your shoe size?" [] Sample.w0 = (o, w')
          ∧ o ≠ Ok None
          ∧ length (sent w') ≤ length (sent Sample.w0) + 2.
Proof.
  apply (chat_ends_when_model_stops Sample.diligent Sample.me0 5
           "What is your shoe size?" [] Sample.w0).
  - apply diligent_never_reenters.
  - intros msgs r Hr.
    change (Ok (Sample.answers_with "I don't know that.") = Ok r) in Hr.
    by injection Hr as <-.
  - lia.
Defined.

(** ** Malformed tool arguments abort the turn (C3) *)





(** ** Tool names that are not registered (C10) *)




(** ** Shape of the requests (C4) *)





(** The model of [Sample.reentrant] answers [hi] by requesting [respond]
    with the message [nested]: the request of the nested [chat] call comes
    between the two requests of the call, and the ToolResult of the round
    holds the history [respond] returned. *)
Example nested_chat_requests :
  chat Sample.reentrant Sample.me0 3 "hi" [] Sample.w0
  = (Ok (Some "Done."),
     {| outbox := [];
        sent := [initial_messages Sample.me0 "hi" [];
                 initial_messages Sample.me0 "nested" [];
                 initial_messages Sample.me0 "hi" []
                 ++ [Reply (message (Sample.requests_tool "call_0" "respond"
                                       Sample.respond_payload));
                     tool_result ("[[" +:+ quoted "nested" +:+ ", " +:+ quoted "Done."
                                  +:+ "]]") "call_0"] ] |}).
Proof. vm_compute. reflexivity. Qed.

(** The system message is rebuilt from the assistant at each call: it holds
    the knowledge-base text as it stands. *)
Lemma contains_skip sub a s :
  Str.contains sub s = true → Str.contains sub (a +:+ s) = true.
Proof.
  intros (x & y & ->)%contains_spec. rewrite <- app_assoc'. apply contains_app.
Qed.

Lemma system_prompt_holds_knowledge me :
  Str.contains (knowledge_base_text me) (system_prompt me) = true.
Proof.
  unfold system_prompt.
  repeat first [apply contains_here | apply contains_skip].
Qed.

(** The keys the API refuses are gone from a prior turn, the others stay. *)
Lemma clean_lookup item k :
  clean item !! k = if bool_decide (k ∈ ["metadata"; "options"]) then None else item !! k.
Proof.
  unfold clean. case_bool_decide as Hk.
  - apply map_lookup_filter_None. right. intros v _ Hnot. by apply Hnot.
  - destruct (item !! k) as [v|] eqn:Hv.
    + by apply map_lookup_filter_Some.
    + apply map_lookup_filter_None. by left.
Qed.

Lemma tool_rounds_no_system tail :
  Spec.tool_rounds tail → Forall (λ m, Spec.role m ≠ Some "system") tail.
Proof.
  induction 1 as [|m calls results rest _ Hres _ IH]; [constructor|].
  apply Forall_app. split; [by repeat constructor|].
  apply Forall_app. split; [|done].
  induction Hres as [|tc res calls results [text ->] _ IHres]; constructor; [|done].
  unfold tool_result. simpl. by rewrite lookup_insert_eq.
Qed.

Lemma groq_history_roles chat_history : Spec.turn_roles (groq_history chat_history).
Proof.
  induction chat_history as [|[user_msg bot_msg] rest IH]; [constructor|].
  simpl. constructor; [left; apply lookup_insert_eq|].
  apply Forall_app. split; [|done].
  destruct bot_msg as [b|]; [|constructor].
  destruct (Str.truthy b); constructor; [right; apply lookup_insert_eq|constructor].
Qed.

Lemma turn_roles_no_system history :
  Spec.turn_roles history →
  Forall (λ item : gmap string json, item !! "role" ≠ Some (JString "system")) history.
Proof.
  intros Hroles. eapply Forall_impl; [exact Hroles|].
  intros item [Hrole|Hrole]; by rewrite Hrole.
Qed.

(** With prior turns that carry no system role, as those the UI builds, a
    well-formed request holds the system message once, at its head. *)
Lemma well_formed_one_system me text history request :
  Forall (λ item : gmap string json, item !! "role" ≠ Some (JString "system")) history →
  Spec.well_formed me text history request →
  ∃ rest, request = system_message me :: rest
          ∧ Forall (λ m, Spec.role m ≠ Some "system") rest.
Proof.
  intros Hhistory (tail & -> & Htail). eexists. split; [reflexivity|].
  apply Forall_app. split.
  - rewrite Forall_fmap, Forall_fmap. eapply Forall_impl; [exact Hhistory|].
    intros item Hitem. simpl in *. rewrite clean_lookup. simpl.
    destruct (item !! "role") as [[]|]; try done. congruence.
  - constructor; [by simpl; rewrite lookup_insert_eq|].
    by apply tool_rounds_no_system.
Qed.

(** ** Knowledge loading (C5, C6, C9) *)

(** C5. [_load_documents] never raises, whatever the file system holds: a
    path that is missing, or whose read fails, is passed over and loading
    goes on. Whatever happens to the other documents, the text of a text
    file that exists and reads, and the text of every non-empty page of a
    PDF that exists and reads through, is in the knowledge base after its
    newline. *)
Theorem load_documents_fails_soft fs me :
  ∃ me',
    _load_documents fs me = (Ok (), me')
    ∧ (∀ path text,
         path ∈ doc_paths_text → path_exists fs path = true →
         file_read fs path = Ok text →
         Str.contains (newline +:+ text) (knowledge_base_text me') = true)
    ∧ (∀ path pages text,
         path ∈ doc_paths_pdf → path_exists fs path = true →
         pdf_pages fs path = Ok pages → (∀ e, Raise e ∉ pages) →
         Ok text ∈ pages → text ≠ "" →
         Str.contains (newline +:+ text) (knowledge_base_text me') = true).
Proof.
  eexists. split; [apply load_documents_spec|]. simpl.
  unfold Spec.knowledge_text, Spec.chunks. split.
  - intros path text Hpath Hexists Hread. apply join_chunks_contains.
    apply elem_of_app. right. apply list_elem_of_In, in_concat.
    exists (Spec.text_chunks fs path). split.
    + apply list_elem_of_In, list_elem_of_fmap. eauto.
    + unfold Spec.text_chunks. rewrite Hexists, Hread. by left.
  - intros path pages text Hpath Hexists Hread Hgood Hin Hne.
    apply join_chunks_contains.
    apply elem_of_app. left. apply list_elem_of_In, in_concat.
    exists (Spec.pdf_chunks fs path). split.
    + apply list_elem_of_In, list_elem_of_fmap. eauto.
    + unfold Spec.pdf_chunks. rewrite Hexists, Hread.
      by apply list_elem_of_In, page_texts_elem.
Qed.

(** With both PDFs missing, the summary is still loaded. *)
Example load_only_summary :
  _load_documents Sample.only_summary Sample.me0
  = (Ok (), {| name := "Manova";
               knowledge_base_text := newline +:+ "Summary of Manova.";
               image_paths := [] |}).
Proof. vm_compute. reflexivity. Qed.


(** When every document exists and reads through, that is the pages of the
    first PDF, those of the second, then the summary. *)
Lemma knowledge_text_all_readable fs me pages1 pages2 summary :
  (∀ p, path_exists fs p = true) →
  pdf_pages fs "me/cv.pdf" = Ok (Ok <$> pages1) →
  pdf_pages fs "knowledge_base/ManovaLebaku Moses.pdf" = Ok (Ok <$> pages2) →
  file_read fs "me/summary.txt" = Ok summary →
  knowledge_base_text (_load_documents fs me).2
  = Spec.join_chunks ""
      (filter (λ t, t ≠ "") pages1 ++ filter (λ t, t ≠ "") pages2 ++ [summary]).
Proof.
  intros Hexists H1 H2 H3. rewrite load_documents_spec.
  unfold Spec.knowledge_text, Spec.chunks, doc_paths_pdf, doc_paths_text.
  assert (∀ pages, Spec.page_texts (Ok <$> pages) = filter (λ t, t ≠ "") pages) as Hpages.
  { induction pages as [|t pages IH]; [done|].
    rewrite fmap_cons. cbn [Spec.page_texts]. rewrite IH.
    rewrite filter_cons.
    destruct (Str.truthy t) eqn:Ht; case_decide as Hne; try done.
    - by apply truthy_spec in Ht.
    - apply truthy_spec in Hne. congruence. }
  simpl. unfold Spec.pdf_chunks, Spec.text_chunks.
  rewrite !Hexists, H1, H2, H3, !Hpages, !app_nil_r. by rewrite <- app_assoc.
Qed.

(** C9. Loading is a function of the file system alone: two loads against
    the same snapshot, from any two states of the assistant, give the same
    text and the same image paths, and neither raises; loading again after
    a load changes nothing. *)
Theorem load_documents_is_deterministic fs me1 me2 :
  knowledge_base_text (_load_documents fs me1).2
  = knowledge_base_text (_load_documents fs me2).2
  ∧ image_paths (_load_documents fs me1).2 = image_paths (_load_documents fs me2).2
  ∧ (_load_documents fs me1).1 = (_load_documents fs me2).1
  ∧ _load_documents fs (_load_documents fs me1).2 = _load_documents fs me1.
Proof. by rewrite !load_documents_spec. Qed.

(** ** Presentation layer (C7, C8) *)

(** C7. A message that is empty or made of white space only is dropped by
    [respond]: the world is left as it was (no request to the model, no
    notification) and the chat history is returned as given, whatever the
    contact fields hold. *)
Theorem respond_drops_blank_message E me fuel text chat_history name_ email w :
  Str.whitespace_only text →
  respond E me fuel text chat_history name_ email w = (Ok (Some chat_history), w).
Proof.
  intros Hblank. unfold respond. by rewrite strip_whitespace_only.
Qed.

Lemma respond_drops_blank_message_witness :
  respond Sample.diligent Sample.me0 5 (" " +:+ newline +:+ "")
    [("Hello", Some "Hi, I am Manova.")] "Ada" "ada@example.org" Sample.w0
  = (Ok (Some [("Hello", Some "Hi, I am Manova.")]), Sample.w0).
Proof.
  apply (respond_drops_blank_message Sample.diligent Sample.me0 5
           (" " +:+ newline +:+ "") [("Hello", Some "Hi, I am Manova.")]
           "Ada" "ada@example.org" Sample.w0).
  apply Str.ws_more; [|apply Str.ws_more; [|apply Str.ws_empty]];
    apply list_elem_of_In; vm_compute; tauto.
Defined.

(** A message with anything else in it reaches the model. *)
Example respond_forwards_other_messages :
  sent (respond Sample.diligent Sample.me0 5 " hi " [] "" "" Sample.w0).2 ≠ [].
Proof. vm_compute. discriminate. Qed.

(** C8. [submit_contact] with an email that is not empty posts exactly one
    notification, whose text holds the email, and posts nothing else; with
    an empty email it posts nothing and asks for the email. *)
Theorem submit_contact_notifies_once E name_ email w :
  (email ≠ "" →
   ∃ text,
     Str.contains email text = true
     ∧ submit_contact E name_ email w
       = (match requests_post E (JString text) with
          | None => Ok (Update "Thank you! Contact info recorded.")
          | Some e => Raise e
          end,
          {| outbox := outbox w ++ [JString text]; sent := sent w |}))
  ∧ (email = "" →
     submit_contact E name_ email w = (Ok (Update "❗ Please enter your email."), w)).
Proof.
  split.
  - intros Hemail. apply truthy_spec in Hemail.
    unfold submit_contact. rewrite Hemail.
    exists ("Recording " +:+ name_or_default name_ +:+ " with email " +:+ email
            +:+ " and notes " +:+ "Submitted via contact form").
    split.
    + apply contains_skip, contains_skip, contains_skip, contains_here.
    + unfold record_user_details, push, bind, ret. simpl.
      by destruct (requests_post E _).
  - by intros ->.
Qed.

Example submit_contact_sample :
  submit_contact Sample.diligent "" "ada@example.org" Sample.w0
  = (Ok (Update "Thank you! Contact info recorded."),
     {| outbox := [JString "Recording Name not provided with email ada@example.org and notes Submitted via contact form"];
        sent := [] |}).
Proof. vm_compute. reflexivity. Qed.

(** * Further properties of the code *)

(** ** Tool dispatch *)




(** Handling a batch is handling its parts one after the other: the
    results are concatenated; if the first part raises, the second is not
    run; if the second raises, the results of the first are lost while its
    effects on the world stay. The same holds of a part in which a nested
    [chat] call is still running. *)
Theorem handle_tool_call_in_sequence E reenter first second w :
  handle_tool_call E reenter (first ++ second) w
  = match handle_tool_call E reenter first w with
    | (Ok (Some results1), w1) =>
        match handle_tool_call E reenter second w1 with
        | (Ok (Some results2), w2) => (Ok (Some (results1 ++ results2)), w2)
        | (Ok None, w2) => (Ok None, w2)
        | (Raise e, w2) => (Raise e, w2)
        end
    | (Ok None, w1) => (Ok None, w1)
    | (Raise e, w1) => (Raise e, w1)
    end.
Proof.
  unfold handle_tool_call. rewrite handle_loop_app.
  destruct (handle_loop E reenter first [] w) as [[[results1|]|e] w1]; [|done..].
  apply handle_loop_results.
Qed.

Lemma name_user_details :
  Schema.name_of record_user_details_json = Some "record_user_details".
Proof. vm_compute. reflexivity. Qed.

Lemma name_unknown_question :
  Schema.name_of record_unknown_question_json = Some "record_unknown_question".
Proof. vm_compute. reflexivity. Qed.

Lemma required_user_details :
  Schema.required record_user_details_json = ["email"].
Proof. vm_compute. reflexivity. Qed.

Lemma properties_user_details :
  Schema.properties record_user_details_json = list_to_set ["email"; "name"; "notes"].
Proof. vm_compute. reflexivity. Qed.

Lemma required_unknown_question :
  Schema.required record_unknown_question_json = ["question"].
Proof. vm_compute. reflexivity. Qed.

Lemma properties_unknown_question :
  Schema.properties record_unknown_question_json = list_to_set ["question"].
Proof. vm_compute. reflexivity. Qed.

Lemma globals_user_details :
  module_globals !! "record_user_details" = Some GRecordUserDetails.
Proof. vm_compute. reflexivity. Qed.

Lemma globals_unknown_question :
  module_globals !! "record_unknown_question" = Some GRecordUnknownQuestion.
Proof. vm_compute. reflexivity. Qed.

Lemma conforms_binds schema required optional v :
  Schema.required schema = required →
  Schema.properties schema = list_to_set (required ++ optional) →
  Schema.conforms schema v →
  ∃ kw, v = JObject kw ∧ bind_kwargs required optional v = Some kw.
Proof.
  intros <- Hprops (kw & -> & Hall & Hdom & _). exists kw. split; [done|].
  unfold bind_kwargs. rewrite bool_decide_eq_true_2; [done|].
  by rewrite <- Hprops.
Qed.

(** The descriptions sent to the model and the signatures of the two tools
    agree: a payload that conforms to the description of the tool it names
    is bound and executed. With a working transport the call posts one
    notification and its ToolResult holds the acknowledgement. *)
Theorem conforming_call_is_executed E reenter schema tc v w :
  Some schema ∈ Schema.described <$> tools →
  Schema.name_of schema = Some (function_name tc) →
  json_loads E (function_arguments tc) = Some v →
  Schema.conforms schema v →
  (∀ text, requests_post E text = None) →
  ∃ text,
    handle_one E reenter tc w
    = (Ok (Some (tool_result ("{" +:+ quoted "recorded" +:+ ": " +:+ quoted "ok" +:+ "}")
                   (call_id tc))),
       {| outbox := outbox w ++ [JString text]; sent := sent w |}).
Proof.
  intros Hschema Hname Hloads Hconforms Hpost.
  change (Schema.described <$> tools)
    with [Some record_user_details_json; Some record_unknown_question_json] in Hschema.
  apply elem_of_cons in Hschema as [[= ->]|Hschema].
  - assert (function_name tc = "record_user_details") as Hfn
      by (rewrite name_user_details in Hname; by injection Hname).
    destruct (conforms_binds _ ["email"] ["name"; "notes"] v required_user_details
                properties_user_details Hconforms) as (kw & -> & Hbind).
    unfold handle_one, bind, ret. rewrite Hloads, Hfn, globals_user_details.
    unfold call. rewrite Hbind.
    unfold record_user_details, push, bind, ret. rewrite Hpost. by eexists.
  - apply elem_of_cons in Hschema as [[= ->]|Hschema]; [|by apply elem_of_nil in Hschema].
    assert (function_name tc = "record_unknown_question") as Hfn
      by (rewrite name_unknown_question in Hname; by injection Hname).
    destruct (conforms_binds _ ["question"] [] v required_unknown_question
                properties_unknown_question Hconforms) as (kw & -> & Hbind).
    unfold handle_one, bind, ret. rewrite Hloads, Hfn, globals_unknown_question.
    unfold call. rewrite Hbind.
    unfold record_unknown_question, push, bind, ret. rewrite Hpost. by eexists.
Qed.

Lemma conforming_call_is_executed_witness :
  ∃ text,
    handle_one Sample.diligent (Sample.reenter Sample.diligent)
      {| call_id := "call_1"; function_name := "record_unknown_question";
         function_arguments := Sample.object1 "question" "Who are you?" |} Sample.w0
    = (Ok (Some (tool_result ("{" +:+ quoted "recorded" +:+ ": " +:+ quoted "ok" +:+ "}")
                   "call_1")),
       {| outbox := outbox Sample.w0 ++ [JString text]; sent := sent Sample.w0 |}).
Proof.
  apply (conforming_call_is_executed Sample.diligent (Sample.reenter Sample.diligent)
           record_unknown_question_json
           {| call_id := "call_1"; function_name := "record_unknown_question";
              function_arguments := Sample.object1 "question" "Who are you?" |}
           (JObject {[ "question" := JString "Who are you?" ]}) Sample.w0).
  - right. left.
  - vm_compute. reflexivity.
  - vm_compute. reflexivity.
  - exists {[ "question" := JString "Who are you?" ]}. split; [done|]. split.
    + rewrite required_unknown_question. repeat constructor.
      exists (JString "Who are you?"). apply lookup_singleton_eq.
    + split.
      * rewrite properties_unknown_question, dom_singleton_L. set_solver.
      * intros k x [_ <-]%lookup_singleton_Some. by eexists.
  - done.
Defined.

(** [record_user_details] called by the model with an email only: the name
    and the notes take the defaults of the signature, and the notification
    says so. Whether the ToolResult is returned depends on the transport
    alone. *)
Theorem record_user_details_defaults E reenter tc email w :
  function_name tc = "record_user_details" →
  json_loads E (function_arguments tc) = Some (JObject {[ "email" := JString email ]}) →
  handle_one E reenter tc w
  = (match requests_post E
             (JString ("Recording Name not provided with email " +:+ email
                       +:+ " and notes not provided")) with
     | None => Ok (Some (tool_result (json_dumps recorded_ok) (call_id tc)))
     | Some e => Raise e
     end,
     {| outbox := outbox w ++ [JString ("Recording Name not provided with email "
                                        +:+ email +:+ " and notes not provided")];
        sent := sent w |}).
Proof.
  intros Hname Hloads. unfold handle_one, bind, ret.
  rewrite Hloads, Hname, globals_user_details. unfold call, bind_kwargs.
  rewrite bool_decide_eq_true_2.
  2: { split.
       - repeat constructor. eexists. apply lookup_singleton_eq.
       - rewrite dom_singleton_L. set_solver. }
  rewrite lookup_singleton_eq, !lookup_singleton_ne by done.
  unfold record_user_details, push, bind, ret. simpl.
  by destruct (requests_post E _).
Qed.

Lemma record_user_details_defaults_witness :
  handle_one Sample.diligent (Sample.reenter Sample.diligent)
    {| call_id := "call_2"; function_name := "record_user_details";
       function_arguments := Sample.object1 "email" "ada@example.org" |} Sample.w0
  = (Ok (Some (tool_result (json_dumps recorded_ok) "call_2")),
     {| outbox := [JString "Recording Name not provided with email ada@example.org and notes not provided"];
        sent := [] |}).
Proof.
  apply (record_user_details_defaults Sample.diligent (Sample.reenter Sample.diligent)
           {| call_id := "call_2"; function_name := "record_user_details";
              function_arguments := Sample.object1 "email" "ada@example.org" |}
           "ada@example.org" Sample.w0).
  - reflexivity.
  - vm_compute. reflexivity.
Defined.

(** ** The loop of [chat] *)

(** A response whose finish reason is anything but [tool_calls] ends the
    loop at once: it is returned as the last response, and the invocations
    it may carry are not run (nothing is posted, nothing is appended). *)
Theorem tool_calls_of_a_final_response_are_ignored E me fuel n messages w r :
  completions_create E n messages = Ok r →
  finish_reason r ≠ "tool_calls" →
  chat_loop E me (S fuel) n messages w
  = (Ok (Some r), {| outbox := outbox w; sent := sent w ++ [messages] |}).
Proof.
  intros Hr Hreason. simpl. unfold bind, create. rewrite Hr.
  by destruct (String.eqb_spec (finish_reason r) "tool_calls").
Qed.

Lemma tool_calls_of_a_final_response_are_ignored_witness :
  chat_loop
    (Sample.env_of (λ _ _, Ok {| finish_reason := "stop";
                                 message := {| content := Some "Sure.";
                                               tool_calls := Some
                                                 [{| call_id := "call_3";
                                                     function_name := "record_unknown_question";
                                                     function_arguments :=
                                                       Sample.object1 "question" "x" |}] |} |}))
    Sample.me0 3 0 [user_message "hello"] Sample.w0
  = (Ok (Some {| finish_reason := "stop";
                 message := {| content := Some "Sure.";
                               tool_calls := Some
                                 [{| call_id := "call_3";
                                     function_name := "record_unknown_question";
                                     function_arguments :=
                                       Sample.object1 "question" "x" |}] |} |}),
     {| outbox := []; sent := [] ++ [[user_message "hello"]] |}).
Proof.
  apply (tool_calls_of_a_final_response_are_ignored
           (Sample.env_of (λ _ _, Ok {| finish_reason := "stop";
                                        message := {| content := Some "Sure.";
                                                      tool_calls := Some
                                                        [{| call_id := "call_3";
                                                            function_name := "record_unknown_question";
                                                            function_arguments :=
                                                              Sample.object1 "question" "x" |}] |} |}))
           Sample.me0 2 0 [user_message "hello"] Sample.w0).
  - reflexivity.
  - discriminate.
Defined.

(** A last response without text makes [chat] raise [AttributeError] at
    [answer.lower()]: nothing is returned and the lines after the loop post
    nothing. *)
Theorem chat_raises_without_text E me fuel text history w r w1 :
  chat_loop E me fuel 0 (initial_messages me text history) w = (Ok (Some r), w1) →
  content (message r) = None →
  chat E me fuel text history w = (Raise AttributeError, w1).
Proof.
  intros Hloop Hcontent. unfold chat, chat_with, bind. rewrite Hloop.
  unfold post_process. by rewrite Hcontent.
Qed.

Lemma chat_raises_without_text_witness :
  chat (Sample.env_of (λ _ _, Ok {| finish_reason := "stop";
                                    message := {| content := None; tool_calls := None |} |}))
    Sample.me0 3 "hello" [] Sample.w0
  = (Raise AttributeError,
     {| outbox := []; sent := [] ++ [initial_messages Sample.me0 "hello" []] |}).
Proof.
  apply (chat_raises_without_text
           (Sample.env_of (λ _ _, Ok {| finish_reason := "stop";
                                        message := {| content := None;
                                                      tool_calls := None |} |}))
           Sample.me0 3 "hello" [] Sample.w0
           {| finish_reason := "stop";
              message := {| content := None; tool_calls := None |} |}).
  - reflexivity.
  - reflexivity.
Defined.

(** When the answer holds one of the phrases and the transport raises on the
    notification, [chat] raises that exception: the answer is not returned. *)
Theorem failed_notification_loses_the_answer E me fuel text history w r w1 answer e :
  chat_loop E me fuel 0 (initial_messages me text history) w = (Ok (Some r), w1) →
  content (message r) = Some answer →
  Spec.says_unknown answer →
  requests_post E (JString ("Recording unknown question: " +:+ text)) = Some e →
  chat E me fuel text history w
  = (Raise e,
     {| outbox := outbox w1 ++ [JString ("Recording unknown question: " +:+ text)];
        sent := sent w1 |}).
Proof.
  intros Hloop Hcontent Hunknown Hpost. unfold chat, chat_with, bind. rewrite Hloop.
  unfold post_process, bind. rewrite Hcontent.
  apply says_unknown_iff in Hunknown. rewrite Hunknown. simpl.
  unfold record_unknown_question, push, bind. simpl. by rewrite Hpost.
Qed.

Lemma failed_notification_loses_the_answer_witness :
  chat {| json_loads := Sample.loads; str := Sample.str_of;
          dumps := Sample.dumps_of; iter := Sample.iter_of; zero := Sample.zero_of;
          requests_post := λ _, Some (Failure "ConnectionError");
          completions_create := λ _ _, Ok (Sample.answers_with "I don't know.");
          foreign_call := λ _ _, ([], Raise TypeError) |}
    Sample.me0 2 "hi" [] Sample.w0
  = (Raise (Failure "ConnectionError"),
     {| outbox := [] ++ [JString ("Recording unknown question: " +:+ "hi")];
        sent := [initial_messages Sample.me0 "hi" []] |}).
Proof.
  apply (failed_notification_loses_the_answer
           {| json_loads := Sample.loads; str := Sample.str_of;
              dumps := Sample.dumps_of; iter := Sample.iter_of;
              zero := Sample.zero_of;
              requests_post := λ _, Some (Failure "ConnectionError");
              completions_create := λ _ _, Ok (Sample.answers_with "I don't know.");
              foreign_call := λ _ _, ([], Raise TypeError) |}
           Sample.me0 2 "hi" [] Sample.w0 (Sample.answers_with "I don't know.")
           {| outbox := []; sent := [initial_messages Sample.me0 "hi" []] |}
           "I don't know.").
  - reflexivity.
  - reflexivity.
  - exists "i don't know", "", ".". split; [apply list_elem_of_here|reflexivity].
  - reflexivity.
Defined.

Lemma chat_loop_grows E me fuel : ∀ n messages w,
  Spec.never_requests E "respond" →
  ∃ requests,
    sent (chat_loop E me fuel n messages w).2 = sent w ++ requests
    ∧ Forall (λ req, messages `prefix_of` req) requests
    ∧ grows requests.
Proof.
  assert (∀ messages : list msg, grows [messages]) as Hone.
  { intros messages i j a b Hij Hi Hj. destruct j as [|j]; [lia|].
    by rewrite lookup_cons_ne_0, lookup_nil in Hj by lia. }
  induction fuel as [|fuel IH]; intros n messages w Hnever.
  - exists []. rewrite app_nil_r. split; [done|]. split; [constructor|].
    intros i j a b _ Hi. by rewrite lookup_nil in Hi.
  - simpl. unfold bind at 1, create at 1.
    destruct (completions_create E n messages) as [r|e] eqn:Hr; simpl.
    2: { exists [messages]. split; [done|]. split; [by repeat constructor|apply Hone]. }
    destruct (String.eqb (finish_reason r) "tool_calls").
    2: { exists [messages]. split; [done|]. split; [by repeat constructor|apply Hone]. }
    unfold bind at 1. destruct (tool_calls (message r)) as [calls|] eqn:Hcalls; simpl.
    2: { exists [messages]. split; [done|]. split; [by repeat constructor|apply Hone]. }
    unfold bind at 1.
    pose proof (handle_tool_call_sent E (respond_tool E me (chat_loop E me fuel)) calls
                  {| outbox := outbox w; sent := sent w ++ [messages] |}
                  (Hnever _ _ _ _ Hr Hcalls)) as Hsent.
    destruct (handle_tool_call E _ calls _) as [[[results|]|e] w2]; simpl in Hsent.
    2: { exists [messages]. simpl. rewrite Hsent.
         split; [done|]. split; [by repeat constructor|apply Hone]. }
    2: { exists [messages]. simpl. rewrite Hsent.
         split; [done|]. split; [by repeat constructor|apply Hone]. }
    destruct (IH (S n) (messages ++ Reply (message r) :: results) w2 Hnever)
      as (requests & -> & Hall & Hgrows).
    exists (messages :: requests). rewrite Hsent, <- app_assoc. split; [done|].
    assert (Forall (λ req, messages `prefix_of` req ∧ length messages < length req)
              requests) as Hlater.
    { eapply Forall_impl; [exact Hall|]. intros req [k ->]. split.
      - rewrite <- app_assoc. by apply prefix_app_r.
      - rewrite !length_app. simpl. lia. }
    split.
    + constructor; [done|]. eapply Forall_impl; [exact Hlater|]. by intros req [? _].
    + intros i j a b Hij Hi Hj. destruct j as [|j]; [lia|].
      rewrite lookup_cons_ne_0 in Hj by lia. simpl in Hj.
      destruct i as [|i].
      * injection Hi as <-.
        by apply (proj1 (Forall_lookup _ _) Hlater j).
      * simpl in Hi. apply (Hgrows i j); [lia|done..].
Qed.

(** As long as the model does not name [respond], the conversation sent to
    it only grows during a [chat] call: each later request starts with each
    earlier one and is longer, so nothing that was sent is ever dropped or
    rewritten. *)
Theorem requests_only_grow E me fuel text history w :
  Spec.never_requests E "respond" →
  ∃ requests,
    sent (chat E me fuel text history w).2 = sent w ++ requests
    ∧ ∀ i j a b, i < j → requests !! i = Some a → requests !! j = Some b →
        a `prefix_of` b ∧ length a < length b.
Proof.
  intros Hnever. rewrite chat_sent_loop.
  destruct (chat_loop_grows E me fuel 0 (initial_messages me text history) w Hnever)
    as (requests & Hsent & _ & Hgrows).
  by exists requests.
Qed.

Lemma requests_only_grow_witness :
  ∃ requests,
    sent (chat Sample.diligent Sample.me0 5 "What is your shoe size?" [] Sample.w0).2
    = sent Sample.w0 ++ requests
    ∧ ∀ i j a b, i < j → requests !! i = Some a → requests !! j = Some b →
        a `prefix_of` b ∧ length a < length b.
Proof.
  apply (requests_only_grow Sample.diligent Sample.me0 5 "What is your shoe size?" []
           Sample.w0).
  apply diligent_never_reenters.
Defined.

(** With a model that names [respond], the request of the nested call
    comes between two requests of the call and extends neither. *)
Example nested_requests_do_not_grow :
  ¬ grows (sent (chat Sample.reentrant Sample.me0 3 "hi" [] Sample.w0).2).
Proof.
  intros Hgrows.
  destruct (Hgrows 0 1 (initial_messages Sample.me0 "hi" [])
              (initial_messages Sample.me0 "nested" [])) as [_ Hlen];
    [lia|vm_compute; reflexivity..|].
  vm_compute in Hlen. lia.
Qed.

(** ** [respond] *)

(** A message that does not strip to nothing is answered: when [chat]
    returns, [respond] appends exactly the pair of the message and the
    answer to the history; with an email in the contact field it then posts
    one contact notification that quotes the message, and the history is
    returned only if that post goes through. *)
Theorem respond_appends_the_turn E me fuel text chat_history name_ email w answer w1 :
  Str.strip text ≠ "" →
  chat E me fuel text (groq_history chat_history) w = (Ok (Some answer), w1) →
  respond E me fuel text chat_history name_ email w
  = if Str.truthy email then
      (match requests_post E
               (JString ("Recording " +:+ name_or_default name_ +:+ " with email "
                         +:+ email +:+ " and notes " +:+ "From chat: " +:+ text)) with
       | None => Ok (Some (chat_history ++ [(text, Some answer)]))
       | Some e => Raise e
       end,
       {| outbox := outbox w1
                    ++ [JString ("Recording " +:+ name_or_default name_ +:+ " with email "
                                 +:+ email +:+ " and notes " +:+ "From chat: " +:+ text)];
          sent := sent w1 |})
    else (Ok (Some (chat_history ++ [(text, Some answer)])), w1).
Proof.
  intros Hstrip Hchat. apply truthy_spec in Hstrip.
  unfold respond. rewrite Hstrip. simpl. unfold bind at 1. rewrite Hchat.
  destruct (Str.truthy email); [|done].
  unfold record_user_details, push, bind, ret. simpl.
  by destruct (requests_post E _).
Qed.

Lemma respond_appends_the_turn_witness :
  respond (Sample.env_of (λ _ _, Ok (Sample.answers_with "Hello!")))
    Sample.me0 2 "hi" [("Hello", Some "Hi, I am Manova.")] "" "" Sample.w0
  = (Ok (Some ([("Hello", Some "Hi, I am Manova.")] ++ [("hi", Some "Hello!")])),
     {| outbox := [];
        sent := [initial_messages Sample.me0 "hi"
                   (groq_history [("Hello", Some "Hi, I am Manova.")])] |}).
Proof.
  apply (respond_appends_the_turn
           (Sample.env_of (λ _ _, Ok (Sample.answers_with "Hello!")))
           Sample.me0 2 "hi" [("Hello", Some "Hi, I am Manova.")] "" "" Sample.w0
           "Hello!").
  - vm_compute. discriminate.
  - vm_compute. reflexivity.
Defined.

(** [respond] catches nothing: when [chat] raises, [respond] raises the same
    exception; the history is not extended and no contact notification is
    posted, whatever the contact fields hold. *)
Theorem respond_propagates_failure E me fuel text chat_history name_ email w e w1 :
  Str.strip text ≠ "" →
  chat E me fuel text (groq_history chat_history) w = (Raise e, w1) →
  respond E me fuel text chat_history name_ email w = (Raise e, w1).
Proof.
  intros Hstrip Hchat. apply truthy_spec in Hstrip.
  unfold respond. rewrite Hstrip. simpl. unfold bind at 1. by rewrite Hchat.
Qed.

Lemma respond_propagates_failure_witness :
  respond (Sample.env_of (λ _ _, Raise (Failure "APIConnectionError")))
    Sample.me0 2 "hi" [] "Ada" "ada@example.org" Sample.w0
  = (Raise (Failure "APIConnectionError"),
     {| outbox := []; sent := [initial_messages Sample.me0 "hi" []] |}).
Proof.
  apply (respond_propagates_failure
           (Sample.env_of (λ _ _, Raise (Failure "APIConnectionError")))
           Sample.me0 2 "hi" [] "Ada" "ada@example.org" Sample.w0).
  - vm_compute. discriminate.
  - vm_compute. reflexivity.
Defined.

Lemma respond_kwargs (message_ chat_history name_ email : json) :
  bind_kwargs ["message"; "chat_history"; "name"; "email"] []
    (JObject {[ "message" := message_; "chat_history" := chat_history;
                "name" := name_; "email" := email ]})
  = Some {[ "message" := message_; "chat_history" := chat_history;
            "name" := name_; "email" := email ]}.
Proof.
  unfold bind_kwargs. rewrite bool_decide_eq_true_2; [done|]. split.
  - repeat constructor; eexists; by simplify_map_eq.
  - rewrite !dom_insert_L, dom_singleton_L. set_solver.
Qed.

Lemma history_loop_turns E (chat_history : turns) : ∀ acc,
  history_loop E
    ((λ turn : string * option string,
        JArray [JString turn.1;
                match turn.2 with
                | Some bot_msg => JString bot_msg
                | None => JNull
                end]) <$> chat_history) acc
  = Ok (acc ++ groq_history chat_history).
Proof.
  induction chat_history as [|[user_msg bot_msg] rest IH]; intros acc.
  - by rewrite app_nil_r.
  - rewrite fmap_cons. cbn [history_loop unpack iterate fst snd groq_history].
    rewrite IH. destruct bot_msg as [b|]; cbn [truthy_json].
    + destruct (Str.truthy b); by rewrite <- !app_assoc.
    + by rewrite <- !app_assoc.
Qed.

(** [respond] reached as a tool is the [respond] of the UI: called with the
    JSON values of a message, a history and the contact fields, it does
    what the UI callback does with them and returns the JSON text of the
    history the callback returns. *)
Theorem respond_as_a_tool_is_respond E me fuel text (chat_history : turns) name_ email w :
  respond_tool E me (chat_loop E me fuel)
    (JObject {[ "message" := JString text;
                "chat_history" := Spec.json_of_turns chat_history;
                "name" := JString name_; "email" := JString email ]}) w
  = match respond E me fuel text chat_history name_ email w with
    | (Ok (Some history), w') => (Ok (Some (dumps E (Spec.json_of_turns history))), w')
    | (Ok None, w') => (Ok None, w')
    | (Raise e, w') => (Raise e, w')
    end.
Proof.
  unfold respond_tool, respond. rewrite respond_kwargs.
  assert (∀ a b c d : json,
            ({[ "message" := a; "chat_history" := b; "name" := c; "email" := d ]}
               : gmap string json) !! "message" = Some a) as ->
    by (intros; by simplify_map_eq).
  assert (∀ a b c d : json,
            ({[ "message" := a; "chat_history" := b; "name" := c; "email" := d ]}
               : gmap string json) !! "chat_history" = Some b) as ->
    by (intros; by simplify_map_eq).
  assert (∀ a b c d : json,
            ({[ "message" := a; "chat_history" := b; "name" := c; "email" := d ]}
               : gmap string json) !! "name" = Some c) as ->
    by (intros; by simplify_map_eq).
  assert (∀ a b c d : json,
            ({[ "message" := a; "chat_history" := b; "name" := c; "email" := d ]}
               : gmap string json) !! "email" = Some d) as ->
    by (intros; by simplify_map_eq).
  cbn [default from_option id].
  destruct (negb (Str.truthy (Str.strip text))); [done|].
  unfold Spec.json_of_turns at 1 2. cbn [iterate].
  unfold bind at 1, lift at 1. unfold bind at 1, lift at 1.
  rewrite history_loop_turns, app_nil_l.
  unfold bind at 1. unfold bind at 3. fold (chat E me fuel text (groq_history chat_history)).
  destruct (chat E me fuel text (groq_history chat_history) w) as [[[answer|]|e] w1];
    [|done..].
  cbn [truthy_json]. unfold name_or_default, Spec.json_of_turns.
  destruct (Str.truthy email); unfold bind, ret.
  - destruct (Str.truthy name_);
      destruct (record_user_details E _ _ _ w1) as [[r|e] w2]; [|done| |done];
      by rewrite fmap_app.
  - by rewrite fmap_app.
Qed.

(** A tool request for [respond] that carries one kept turn and a new
    message: the model answers the nested call, and the ToolResult would
    hold the history with the new turn. *)
Example respond_as_a_tool_sample :
  respond_tool Sample.diligent Sample.me0 (chat_loop Sample.diligent Sample.me0 3)
    (JObject {[ "message" := JString "More?";
                "chat_history" := Spec.json_of_turns [("Hello", Some "Hi.")];
                "name" := JString ""; "email" := JString "" ]})
    {| outbox := []; sent := [] |}
  = (Ok (Some ("[[" +:+ quoted "Hello" +:+ ", " +:+ quoted "Hi." +:+ "], ["
               +:+ quoted "More?" +:+ ", " +:+ quoted "I don't know that." +:+ "]]")),
     {| outbox := [JString "Recording unknown question: What is your shoe size?";
                   JString "Recording unknown question: More?"];
        sent := [initial_messages Sample.me0 "More?" (groq_history [("Hello", Some "Hi.")]);
                 initial_messages Sample.me0 "More?" (groq_history [("Hello", Some "Hi.")])
                 ++ [Reply (message (Sample.requests_tool "call_0"
                                       "record_unknown_question"
                                       (Sample.object1 "question"
                                          "What is your shoe size?")));
                     tool_result (json_dumps recorded_ok) "call_0"] ] |}).
Proof. vm_compute. reflexivity. Qed.

Lemma clean_turn (role_ text : json) :
  clean {[ "role" := role_; "content" := text ]} = {[ "role" := role_; "content" := text ]}.
Proof.
  apply map_eq. intros k. rewrite clean_lookup. case_bool_decide as Hk; [|done].
  apply elem_of_cons in Hk as [->|Hk]; [done|].
  apply elem_of_cons in Hk as [->|Hk]; [done|]. by apply elem_of_nil in Hk.
Qed.

Lemma turn_role (r : string) (t : json) :
  ({[ "role" := JString r; "content" := t ]} : gmap string json) !! "role"
  = Some (JString r).
Proof. apply lookup_insert_eq. Qed.

Lemma turn_content (r : string) (t : json) :
  ({[ "role" := JString r; "content" := t ]} : gmap string json) !! "content" = Some t.
Proof. by rewrite lookup_insert_ne, lookup_singleton_eq. Qed.

Lemma turn_role_of (r : string) (t : json) :
  Spec.role (Dict {[ "role" := JString r; "content" := t ]}) = Some r.
Proof. unfold Spec.role. by rewrite turn_role. Qed.

(** The turns [respond] builds start with a user message. *)
Lemma groq_history_head chat_history :
  match groq_history chat_history with
  | [] => True
  | item :: _ => item !! "role" = Some (JString "user")
  end.
Proof. destruct chat_history as [|[user_msg bot_msg] rest]; [done|apply turn_role]. Qed.

Lemma turns_of_user user_msg rest :
  match rest with
  | [] => True
  | item :: _ => item !! "role" = Some (JString "user")
  end →
  Spec.turns_of ({[ "role" := JString "user"; "content" := JString user_msg ]} :: rest)
  = (user_msg, None) :: Spec.turns_of rest.
Proof.
  intros Hrest. cbn [Spec.turns_of]. rewrite turn_role, turn_content.
  destruct rest as [|item rest]; [done|]. rewrite Hrest.
  by destruct (item !! "content") as [[]|].
Qed.

Lemma turns_of_pair user_msg bot_msg rest :
  Spec.turns_of ({[ "role" := JString "user"; "content" := JString user_msg ]}
                 :: {[ "role" := JString "assistant"; "content" := JString bot_msg ]}
                 :: rest)
  = (user_msg, Some bot_msg) :: Spec.turns_of rest.
Proof. cbn [Spec.turns_of]. by rewrite !turn_role, !turn_content. Qed.

(** The history the UI keeps reaches the model as it is: every user
    message is sent, in order, each followed at once by its reply unless the
    reply is absent or empty, so that reading the messages back as turns
    gives the turns kept; the messages carry the roles [user] and
    [assistant] only, and the removal of the keys the API refuses changes
    nothing. *)
Theorem ui_history_is_sent_as_kept (chat_history : turns) :
  clean <$> groq_history chat_history = groq_history chat_history
  ∧ (λ item : gmap string json, item !! "content")
      <$> filter (λ item : gmap string json, Spec.role (Dict item) = Some "user")
            (groq_history chat_history)
    = (λ turn, Some (JString turn.1)) <$> chat_history
  ∧ (λ item : gmap string json, item !! "content")
      <$> filter (λ item : gmap string json, Spec.role (Dict item) = Some "assistant")
            (groq_history chat_history)
    = (λ b, Some (JString b))
      <$> filter (λ b, b ≠ "") (omap (λ turn : string * option string, turn.2) chat_history)
  ∧ Forall (λ item : gmap string json,
              item !! "role" = Some (JString "user")
              ∨ item !! "role" = Some (JString "assistant"))
      (groq_history chat_history)
  ∧ Spec.turns_of (groq_history chat_history)
    = (λ turn : string * option string,
         (turn.1, match turn.2 with
                  | Some b => if Str.truthy b then Some b else None
                  | None => None
                  end)) <$> chat_history.
Proof.
  induction chat_history as [|[user_msg bot_msg] rest (IH1 & IH2 & IH3 & IH4 & IH5)];
    [by repeat split|].
  pose proof (groq_history_head rest) as Hhead.
  cbn [groq_history].
  destruct bot_msg as [b|]; [destruct (Str.truthy b) eqn:Hb|].
  - pose proof Hb as Hne. apply truthy_spec in Hne.
    repeat split.
    + rewrite !fmap_app, !fmap_cons, !clean_turn. cbn [app fmap list_fmap].
      by rewrite IH1.
    + cbn [app]. rewrite filter_cons_True by apply turn_role_of.
      rewrite filter_cons_False by (rewrite turn_role_of; congruence).
      rewrite !fmap_cons, turn_content. cbn [fst]. by rewrite IH2.
    + cbn [app omap list_omap snd].
      rewrite filter_cons_False by (rewrite turn_role_of; congruence).
      rewrite filter_cons_True by apply turn_role_of.
      rewrite (filter_cons_True _ b) by done.
      rewrite !fmap_cons, turn_content. by rewrite IH3.
    + cbn [app]. constructor; [left; apply turn_role|].
      constructor; [right; apply turn_role|done].
    + cbn [app]. rewrite turns_of_pair, IH5, fmap_cons. cbn [fst snd]. by rewrite Hb.
  - pose proof Hb as Hempty.
    unfold Str.truthy in Hempty. apply negb_false_iff, String.eqb_eq in Hempty as ->.
    repeat split.
    + rewrite !fmap_app, !fmap_cons, !clean_turn. cbn [app fmap list_fmap].
      by rewrite IH1.
    + cbn [app]. rewrite filter_cons_True by apply turn_role_of.
      rewrite !fmap_cons, turn_content. cbn [fst]. by rewrite IH2.
    + cbn [app omap list_omap snd].
      by rewrite (filter_cons_False _ "") by (intros H; by apply H).
    + cbn [app]. constructor; [left; apply turn_role|done].
    + cbn [app]. rewrite turns_of_user, IH5, fmap_cons by done. cbn [fst snd].
      by rewrite Hb.
  - repeat split.
    + rewrite !fmap_app, !fmap_cons, !clean_turn. cbn [app fmap list_fmap].
      by rewrite IH1.
    + cbn [app]. rewrite filter_cons_True by apply turn_role_of.
      rewrite !fmap_cons, turn_content. cbn [fst]. by rewrite IH2.
    + by cbn [app omap list_omap snd].
    + cbn [app]. constructor; [left; apply turn_role|done].
    + cbn [app]. by rewrite turns_of_user, IH5, fmap_cons by done.
Qed.

(** A kept turn with a reply is sent as a user message followed at once by
    the assistant message of the reply. *)
Example ui_history_sample :
  groq_history [("Hello", Some "Hi, I am Manova."); ("Skipped", None); ("More?", Some "Yes.")]
  = [ {[ "role" := JString "user"; "content" := JString "Hello" ]};
      {[ "role" := JString "assistant"; "content" := JString "Hi, I am Manova." ]};
      {[ "role" := JString "user"; "content" := JString "Skipped" ]};
      {[ "role" := JString "user"; "content" := JString "More?" ]};
      {[ "role" := JString "assistant"; "content" := JString "Yes." ]} ].
Proof. reflexivity. Qed.

(** The system prompt embeds the persona name and the whole knowledge-base
    text, verbatim, whatever they hold. *)
Theorem system_prompt_embeds_name_and_knowledge me :
  Str.contains (name me) (system_prompt me) = true
  ∧ Str.contains (knowledge_base_text me) (system_prompt me) = true.
Proof.
  split.
  - unfold system_prompt. apply contains_skip, contains_here.
  - unfold system_prompt. repeat first [apply contains_here | apply contains_skip].
Qed.

(** ** [_load_documents] *)

Lemma load_documents_agree fs1 fs2 me :
  (∀ p, p ∈ doc_paths_pdf ++ doc_paths_text ++ doc_paths_images →
        path_exists fs1 p = path_exists fs2 p) →
  (∀ p, p ∈ doc_paths_pdf → path_exists fs1 p = true →
        pdf_pages fs1 p = pdf_pages fs2 p) →
  (∀ p, p ∈ doc_paths_text → path_exists fs1 p = true →
        file_read fs1 p = file_read fs2 p) →
  _load_documents fs1 me = _load_documents fs2 me.
Proof.
  intros Hexists Hpdf Htext. rewrite !load_documents_spec.
  assert (∀ p, p ∈ doc_paths_pdf → Spec.pdf_chunks fs1 p = Spec.pdf_chunks fs2 p) as Hp.
  { intros p Hin. unfold Spec.pdf_chunks.
    rewrite <- Hexists by (apply elem_of_app; by left).
    destruct (path_exists fs1 p) eqn:Hex; [|done]. by rewrite Hpdf. }
  assert (∀ p, p ∈ doc_paths_text → Spec.text_chunks fs1 p = Spec.text_chunks fs2 p) as Ht.
  { intros p Hin. unfold Spec.text_chunks.
    rewrite <- Hexists by (apply elem_of_app; right; apply elem_of_app; by left).
    destruct (path_exists fs1 p) eqn:Hex; [|done]. by rewrite Htext. }
  assert (Spec.images fs1 = Spec.images fs2) as ->.
  { unfold Spec.images, doc_paths_images. rewrite !filter_cons, !filter_nil.
    rewrite Hexists; [done|]. do 3 right. left. }
  unfold Spec.knowledge_text, Spec.chunks, doc_paths_pdf, doc_paths_text in *.
  simpl. rewrite !Hp, !Ht; [done|left|right; left|left].
Qed.

(** [_load_documents] looks at the configured paths only, each by its
    kind, and opens none that does not exist: two file systems that agree
    on which configured paths exist, on the pages of the configured PDFs
    that exist and on the content of the configured text file if it exists,
    load to the same assistant, however they differ elsewhere. *)
Theorem load_reads_existing_configured_documents_only fs1 fs2 me :
  (∀ p, p ∈ doc_paths_pdf ++ doc_paths_text ++ doc_paths_images →
        path_exists fs1 p = path_exists fs2 p) →
  (∀ p, p ∈ doc_paths_pdf → path_exists fs1 p = true →
        pdf_pages fs1 p = pdf_pages fs2 p) →
  (∀ p, p ∈ doc_paths_text → path_exists fs1 p = true →
        file_read fs1 p = file_read fs2 p) →
  _load_documents fs1 me = _load_documents fs2 me.
Proof. apply load_documents_agree. Qed.

Lemma load_reads_existing_configured_documents_only_witness :
  _load_documents Sample.only_summary Sample.me0
  = _load_documents
      {| path_exists := λ p, bool_decide (p = "me/summary.txt");
         pdf_pages := λ _, Ok [Ok "Never read."];
         file_read := λ p, if bool_decide (p = "me/summary.txt")
                           then Ok "Summary of Manova." else Ok "Never read." |}
      Sample.me0.
Proof.
  apply (load_reads_existing_configured_documents_only Sample.only_summary
           {| path_exists := λ p, bool_decide (p = "me/summary.txt");
              pdf_pages := λ _, Ok [Ok "Never read."];
              file_read := λ p, if bool_decide (p = "me/summary.txt")
                                then Ok "Summary of Manova." else Ok "Never read." |}
           Sample.me0).
  - done.
  - intros p Hin Hp. simpl in Hp. apply bool_decide_eq_true in Hp as ->.
    apply elem_of_cons in Hin as [Hin|Hin]; [done|].
    apply elem_of_cons in Hin as [Hin|Hin]; [done|]. by apply elem_of_nil in Hin.
  - intros p Hin Hp. simpl in Hp. apply bool_decide_eq_true in Hp as ->. done.
Defined.

(** The text file comes last and is taken whole: when it exists and reads,
    the knowledge-base text is what the PDFs gave, a newline, and the
    content of the file, even when that content is empty. *)
Theorem text_file_is_the_last_chunk fs me text :
  path_exists fs "me/summary.txt" = true →
  file_read fs "me/summary.txt" = Ok text →
  knowledge_base_text (_load_documents fs me).2
  = Spec.join_chunks "" (concat (Spec.pdf_chunks fs <$> doc_paths_pdf))
    +:+ newline +:+ text.
Proof.
  intros Hexists Hread. rewrite load_documents_spec.
  unfold Spec.knowledge_text, Spec.chunks. rewrite join_chunks_app.
  simpl. unfold Spec.text_chunks. by rewrite Hexists, Hread.
Qed.

Lemma text_file_is_the_last_chunk_witness :
  knowledge_base_text
    (_load_documents
       {| path_exists := λ _, true;
          pdf_pages := λ _, Ok [Ok "Page one."; Ok ""];
          file_read := λ _, Ok "" |} Sample.me0).2
  = Spec.join_chunks ""
      (concat (Spec.pdf_chunks
                 {| path_exists := λ _, true;
                    pdf_pages := λ _, Ok [Ok "Page one."; Ok ""];
                    file_read := λ _, Ok "" |} <$> doc_paths_pdf))
    +:+ newline +:+ "".
Proof.
  apply (text_file_is_the_last_chunk
           {| path_exists := λ _, true;
              pdf_pages := λ _, Ok [Ok "Page one."; Ok ""];
              file_read := λ _, Ok "" |} Sample.me0 "").
  - reflexivity.
  - reflexivity.
Defined.

Lemma documents_are_not_images p :
  p ∈ doc_paths_pdf ++ doc_paths_text → p ∉ doc_paths_images.
Proof.
  unfold doc_paths_pdf, doc_paths_text, doc_paths_images. simpl. intros Hin Himage.
  apply list_elem_of_singleton in Himage as ->.
  repeat (apply elem_of_cons in Hin as [Hin|Hin]; [discriminate|]).
  by apply elem_of_nil in Hin.
Qed.

(** The image list is exactly the configured image paths that exist, at
    most one. It depends on nothing but the existence of those paths, and
    the image files are not opened: whatever reading a file system at an
    image path would give, the load is the same. *)
Theorem image_paths_are_the_existing_images fs me :
  (∀ p, p ∈ image_paths (_load_documents fs me).2
        ↔ p ∈ doc_paths_images ∧ path_exists fs p = true)
  ∧ length (image_paths (_load_documents fs me).2) ≤ 1
  ∧ (∀ fs',
       (∀ p, p ∈ doc_paths_images → path_exists fs' p = path_exists fs p) →
       image_paths (_load_documents fs' me).2 = image_paths (_load_documents fs me).2)
  ∧ (∀ fs',
       (∀ p, path_exists fs' p = path_exists fs p) →
       (∀ p, p ∉ doc_paths_images →
             pdf_pages fs' p = pdf_pages fs p ∧ file_read fs' p = file_read fs p) →
       _load_documents fs' me = _load_documents fs me).
Proof.
  split; [|split; [|split]].
  - rewrite load_documents_spec. simpl. unfold Spec.images.
    intros p. rewrite list_elem_of_filter. tauto.
  - rewrite load_documents_spec. simpl. unfold Spec.images.
    etrans; [apply length_filter|]. done.
  - intros fs' Hexists. rewrite !load_documents_spec. simpl.
    unfold Spec.images, doc_paths_images in *.
    rewrite !filter_cons, !filter_nil. rewrite Hexists; [done|left].
  - intros fs' Hexists Hreads. apply load_documents_agree.
    + intros p _. apply Hexists.
    + intros p Hin _. apply Hreads, documents_are_not_images, elem_of_app. by left.
    + intros p Hin _. apply Hreads, documents_are_not_images, elem_of_app. by right.
Qed.

Lemma image_paths_are_the_existing_images_witness :
  image_paths
    (_load_documents
       {| path_exists := path_exists Sample.only_summary;
          pdf_pages := λ _, Ok [Ok "Never read."];
          file_read := λ _, Raise (Failure "PermissionError") |} Sample.me0).2
  = image_paths (_load_documents Sample.only_summary Sample.me0).2
  ∧ _load_documents
      {| path_exists := path_exists Sample.only_summary;
         pdf_pages := λ p, if bool_decide (p ∈ doc_paths_images)
                           then Ok [Ok "Pixels."]
                           else pdf_pages Sample.only_summary p;
         file_read := λ p, if bool_decide (p ∈ doc_paths_images)
                           then Ok "Pixels."
                           else file_read Sample.only_summary p |} Sample.me0
    = _load_documents Sample.only_summary Sample.me0.
Proof.
  destruct (image_paths_are_the_existing_images Sample.only_summary Sample.me0)
    as (_ & _ & Himages & Hload).
  split.
  - apply Himages. done.
  - apply Hload; [done|]. intros p Hp. simpl.
    by rewrite bool_decide_eq_false_2.
Defined.

(** ** Prior turns *)

(** Cleaning a prior turn removes the keys [metadata] and [options] and
    nothing else: every other key keeps its value, and cleaning twice is
    cleaning once. *)
Theorem clean_removes_the_refused_keys_only (item : gmap string json) :
  clean item !! "metadata" = None
  ∧ clean item !! "options" = None
  ∧ (∀ k, k ≠ "metadata" → k ≠ "options" → clean item !! k = item !! k)
  ∧ clean (clean item) = clean item.
Proof.
  split; [by rewrite clean_lookup|]. split; [by rewrite clean_lookup|]. split.
  - intros k Hm Ho. rewrite clean_lookup. case_bool_decide as Hk; [|done].
    apply elem_of_cons in Hk as [->|Hk]; [done|].
    apply elem_of_cons in Hk as [->|Hk]; [done|]. by apply elem_of_nil in Hk.
  - apply map_eq. intros k. rewrite !clean_lookup. by case_bool_decide.
Qed.

(** With prior turns that carry the roles [user] and [assistant], every
    request of a log, those of the nested calls included, holds the system
    message once, at its head. *)
Lemma request_log_one_system me text history log :
  Spec.turn_roles history →
  Spec.request_log me text history log →
  Forall (λ request,
            ∃ rest, request = system_message me :: rest
                    ∧ Forall (λ m, Spec.role m ≠ Some "system") rest) log.
Proof.
  intros Hroles Hlog. revert Hroles.
  apply (request_log_mut me
           (λ _ history log,
              Spec.turn_roles history →
              Forall (λ request,
                        ∃ rest, request = system_message me :: rest
                                ∧ Forall (λ m, Spec.role m ≠ Some "system") rest) log)
           (λ log,
              Forall (λ request,
                        ∃ rest, request = system_message me :: rest
                                ∧ Forall (λ m, Spec.role m ≠ Some "system") rest) log))
    with (s := text) (l := history) (l0 := log); [..|exact Hlog].
  - constructor.
  - intros text0 history0 request nested rest Hrequest _ Hnested _ Hrest Hroles.
    constructor.
    + eapply well_formed_one_system; [|exact Hrequest]. by apply turn_roles_no_system.
    + apply Forall_app. auto.
  - constructor.
  - intros text0 history0 log0 rest Hroles _ Hlog0 _ Hrest. apply Forall_app. auto.
Qed.

(** Every request made on behalf of the UI holds the system message once,
    at its head: the turns [respond] builds carry no system role, and
    neither do the messages of the tool rounds. *)
Theorem ui_requests_hold_one_system_message E me fuel text (chat_history : turns) w :
  ∃ requests,
    sent (chat E me fuel text (groq_history chat_history) w).2 = sent w ++ requests
    ∧ Forall (λ request,
                ∃ rest, request = system_message me :: rest
                        ∧ Forall (λ m, Spec.role m ≠ Some "system") rest)
        requests.
Proof.
  rewrite chat_sent_loop.
  destruct (chat_loop_log E me fuel 0 text (groq_history chat_history)
              (initial_messages me text (groq_history chat_history)) [] w
              eq_refl Spec.rounds_none) as (requests & Hsent & Hlog).
  rewrite app_nil_r in Hsent. exists requests. split; [exact Hsent|].
  eapply request_log_one_system; [apply groq_history_roles|exact Hlog].
Qed.
